(** * SOAP utilities of the Playwright API harness: model and properties

    This development embeds [utils/soapUtils.ts] (template rendering,
    the SOAP request sender and the regular-expression tag extractor)
    and states the properties the specification claims about it.
    It also embeds the test suite that calls them, [tests/soap.spec.ts].

    Strings are [string]s whose characters stand for the code units of
    the JavaScript strings; objects used as dictionaries
    ([Record<string, string>], the file system) are [gmap]s. *)

From Stdlib Require Import Strings.String Strings.Ascii ZArith List Bool Lia.
From Stdlib Require Import DecimalString.
From stdpp Require Import base option list gmap strings.

Local Open Scope string_scope.
Local Open Scope list_scope.

(** ** Strings as character lists *)

Abbreviation chars := list_ascii_of_string.
Abbreviation str := string_of_list_ascii.

(** ** The fragment of JavaScript regular expressions the extractor builds *)

Module RegExp.

(** A matcher for one character: a pattern character, the wildcard
    [.], or a negated class [[^...]] of plain characters. *)
Inductive CharMatcher :=
| Lit (c : ascii)
| Dot
| NotOf (cs : list ascii).

(** A term of the pattern: one character, or a capturing group
    around a greedy one-or-more repetition, [(x+)]. *)
Inductive Term :=
| One (m : CharMatcher)
| CapturePlus (m : CharMatcher).

Definition Pattern := list Term.

(** SyntaxCharacter of the ECMAScript pattern grammar. *)
Definition is_syntax_char (c : ascii) : bool :=
  existsb (Ascii.eqb c) (chars "^$\.*+?()[]{}|").

(** [.] matches everything but the line terminators. *)
Definition is_line_terminator (c : ascii) : bool :=
  Ascii.eqb c "010" || Ascii.eqb c "013".

Definition accepts (m : CharMatcher) (c : ascii) : bool :=
  match m with
  | Lit d => Ascii.eqb c d
  | Dot => negb (is_line_terminator c)
  | NotOf cs => negb (existsb (Ascii.eqb c) cs)
  end.

(** *** Reading a pattern source

    The reader is a one-pass automaton.  It understands pattern
    characters, [.], and groups of the exact shape [([^...]+)]; on
    any other use of a syntax character it gives up with [None]:
    such sources are outside the modelled fragment. *)
Inductive ReadState :=
| Top
| AfterParen
| AfterBracket
| InClass (cs : list ascii)
| AfterClass (cs : list ascii)
| AfterPlus (cs : list ascii).

Fixpoint read (st : ReadState) (src : list ascii) : option Pattern :=
  match src with
  | [] => match st with Top => Some [] | _ => None end
  | c :: src' =>
      match st with
      | Top =>
          if Ascii.eqb c "(" then read AfterParen src'
          else if Ascii.eqb c "." then cons (One Dot) <$> read Top src'
          else if is_syntax_char c then None
          else cons (One (Lit c)) <$> read Top src'
      | AfterParen =>
          if Ascii.eqb c "[" then read AfterBracket src' else None
      | AfterBracket =>
          if Ascii.eqb c "^" then read (InClass []) src' else None
      | InClass cs =>
          if Ascii.eqb c "]" then read (AfterClass cs) src'
          else if Ascii.eqb c "\" || Ascii.eqb c "-" then None
          else read (InClass (cs ++ [c])) src'
      | AfterClass cs =>
          if Ascii.eqb c "+" then read (AfterPlus cs) src' else None
      | AfterPlus cs =>
          if Ascii.eqb c ")"
          then cons (CapturePlus (NotOf cs)) <$> read Top src'
          else None
      end
  end.

(** [new RegExp(source)], within the fragment. *)
Definition compile (source : string) : option Pattern :=
  read Top (chars source).

(** *** Backtracking matcher *)

(** Greedy [x+]: take one character, try to take more, and fall
    back to stopping here when the rest of the pattern fails. *)
Fixpoint plus_greedy {R} (m : CharMatcher)
    (k : list ascii -> list ascii -> option R)
    (taken s : list ascii) : option R :=
  match s with
  | [] => None
  | c :: s' =>
      if accepts m c then
        match plus_greedy m k (taken ++ [c]) s' with
        | Some r => Some r
        | None => k (taken ++ [c]) s'
        end
      else None
  end.

(** Match the pattern at the start of [s]; the result is the list
    of captures, in group order. *)
Fixpoint run (p : Pattern) (caps : list (list ascii)) (s : list ascii)
    : option (list (list ascii)) :=
  match p with
  | [] => Some caps
  | One m :: p' =>
      match s with
      | c :: s' => if accepts m c then run p' caps s' else None
      | [] => None
      end
  | CapturePlus m :: p' =>
      plus_greedy m (fun got rest => run p' (caps ++ [got]) rest) [] s
  end.

(** Leftmost match: try every start index in order. *)
Fixpoint search (p : Pattern) (s : list ascii) : option (list (list ascii)) :=
  match run p [] s with
  | Some caps => Some caps
  | None =>
      match s with
      | [] => None
      | _ :: s' => search p s'
      end
  end.

(** [text.match(regex)] for a regex without the global flag: [None]
    is JavaScript's [null]; otherwise the captures [match[1]],
    [match[2]], ... *)
Definition exec (p : Pattern) (text : string) : option (list string) :=
  map str <$> search p (chars text).

(** *** Notions for reasoning about the matcher *)

(** A character of a tag name that is a pattern character or the
    wildcard, and the term it contributes to the pattern. *)
Definition is_simple_char (c : ascii) : bool :=
  negb (is_syntax_char c) || Ascii.eqb c ".".

Definition char_matcher (c : ascii) : CharMatcher :=
  if Ascii.eqb c "." then Dot else Lit c.

Definition char_term (c : ascii) : Term := One (char_matcher c).

(** The pattern read from the source built for a simple tag name
    (see [compile_simple]). *)
Definition tag_pattern (l : list ascii) : Pattern :=
  One (Lit "<") :: map char_term l ++
  One (Lit ">") :: CapturePlus (NotOf ["<"%char]) ::
  One (Lit "<") :: One (Lit "/") :: map char_term l ++ [One (Lit ">")].

Definition is_literal (l : list ascii) : bool :=
  forallb (fun c => negb (is_syntax_char c)) l.

Definition all_accepted (m : CharMatcher) (v : list ascii) : Prop :=
  Forall (fun c => accepts m c = true) v.

(** [s] starts with [<l>v</l>], [v] a non-empty run without [<]. *)
Definition starts_with_element (l s v post : list ascii) : Prop :=
  s = "<"%char :: l ++ ">"%char :: v ++ "<"%char :: "/"%char :: l ++ ">"%char :: post
  /\ v <> [] /\ ~ In "<"%char v.

End RegExp.

(** ** [extractXmlValue] *)

(** What a call of the extractor yields: the returned value ([None]
    for [null]), or [Unmodelled] when the tag name makes the pattern
    source leave the modelled fragment. *)
Inductive Extracted :=
| Returned (v : option string)
| Unmodelled.

(** The template literal [`<${xpath}>([^<]+)</${xpath}>`]. *)
Definition pattern_source (xpath : string) : string :=
  "<" +:+ xpath +:+ ">([^<]+)</" +:+ xpath +:+ ">".

Definition extractXmlValue (xmlResponse xpath : string) : Extracted :=
  match RegExp.compile (pattern_source xpath) with
  | None => Unmodelled
  | Some regex =>
      match RegExp.exec regex xmlResponse with
      | Some (group1 :: _) => Returned (Some group1)
      | Some [] => Returned None  (* a match without group 1: never arises *)
      | None => Returned None
      end
  end.

(** *** Tag names *)

Definition is_letter (c : ascii) : bool :=
  let n := nat_of_ascii c in
  ((65 <=? n) && (n <=? 90) || (97 <=? n) && (n <=? 122))%nat.

Definition is_digit (c : ascii) : bool :=
  let n := nat_of_ascii c in ((48 <=? n) && (n <=? 57))%nat.

Definition is_name_start (c : ascii) : bool :=
  is_letter c || Ascii.eqb c "_".

Definition is_name_char (c : ascii) : bool :=
  is_name_start c || is_digit c || Ascii.eqb c "-" || Ascii.eqb c ".".

(** A bare element local name: an XML name without a prefix (the
    ASCII part of the XML [NCName] production). *)
Definition is_local_name (t : string) : bool :=
  match chars t with
  | [] => false
  | c :: cs => is_name_start c && forallb is_name_char cs
  end.

(** A name all of whose characters stand for themselves in a pattern. *)
Definition is_literal_name (t : string) : bool :=
  forallb (fun c => negb (RegExp.is_syntax_char c)) (chars t).

(** [xml] reads [pre <t> v </t> post], where [v] is a non-empty run
    of characters other than [<]. *)
Definition occurrence (xml t pre v post : string) : Prop :=
  xml = pre +:+ "<" +:+ t +:+ ">" +:+ v +:+ "</" +:+ t +:+ ">" +:+ post
  /\ v <> "" /\ ~ In "<"%char (chars v).

(** Some occurrence starts before offset [n]. *)
Definition occurs_before (xml t : string) (n : nat) : Prop :=
  exists pre v post, occurrence xml t pre v post /\ (String.length pre < n)%nat.

(** ** The world the utilities run in *)

(** What the file system holds for a path that is a key: a regular
    file, a directory, or the record that resolving the path fails
    for a reason other than a plain missing entry, with the error code
    of that failure ([ENOTDIR] when a component of the path is a
    regular file, [ENAMETOOLONG] for an over-long name, [EACCES],
    ...).  A path that is no key has no entry. *)
Inductive FsNode :=
| File (content : string)
| Directory
| Unresolved (code : string).

(** Values that can be thrown. *)
Inductive Exn :=
| ErrnoException (code syscall path : string)
| Thrown (message : string).

Inductive Completion (A : Type) :=
| Normal (a : A)
| Throw (e : Exn).
Arguments Normal {A} a.
Arguments Throw {A} e.

Record APIResponse := {
  status : Z;
  headersArray : list (string * string);
  text : string
}.

Record PostOptions := {
  post_headers : gmap string string;
  post_data : string
}.

Inductive LogArg :=
| LStr (s : string)
| LExn (e : Exn)
| LHeaders (hs : list (string * string)).

Inductive Event :=
| ReadFile (path : string)
| ConsoleLog (args : list LogArg)
| ConsoleError (args : list LogArg)
| Post (endpoint : string) (options : PostOptions).

Record World := {
  fs : gmap string FsNode;
  events : list Event
}.

Definition emit (e : Event) (w : World) : World :=
  {| fs := fs w; events := events w ++ [e] |}.

(** Computations: they read the file system, append events, and
    complete normally or by throwing. *)
Definition Js (A : Type) : Type := World -> Completion A * World.

Definition ret {A} (a : A) : Js A := fun w => (Normal a, w).

Definition throw {A} (e : Exn) : Js A := fun w => (Throw e, w).

Definition bind {A B} (m : Js A) (k : A -> Js B) : Js B :=
  fun w =>
    match m w with
    | (Normal a, w') => k a w'
    | (Throw e, w') => (Throw e, w')
    end.

Definition try_catch {A} (body : Js A) (handler : Exn -> Js A) : Js A :=
  fun w =>
    match body w with
    | (Normal a, w') => (Normal a, w')
    | (Throw e, w') => handler e w'
    end.

Definition lift {A} (c : Completion A) : Js A := fun w => (c, w).

Notation "x <- m ;; k" := (bind m (fun x => k))
  (at level 100, m at next level, right associativity).
Notation "m ;;; k" := (bind m (fun _ => k))
  (at level 100, right associativity).

Definition console_log (args : list LogArg) : Js unit :=
  fun w => (Normal tt, emit (ConsoleLog args) w).

Definition console_error (args : list LogArg) : Js unit :=
  fun w => (Normal tt, emit (ConsoleError args) w).

(** [fs.readFileSync(path, 'utf-8')] *)
Definition readFileSync (path : string) : Js string :=
  fun w =>
    let w' := emit (ReadFile path) w in
    match fs w !! path with
    | Some (File content) => (Normal content, w')
    | Some Directory => (Throw (ErrnoException "EISDIR" "read" path), w')
    | Some (Unresolved code) => (Throw (ErrnoException code "open" path), w')
    | None => (Throw (ErrnoException "ENOENT" "open" path), w')
    end.

(** The HTTP client handed to the sender.  Its answer may depend on
    everything that happened before the call. *)
Definition APIRequestContext : Type :=
  list Event -> string -> PostOptions -> Completion APIResponse.

(** [request.post(endpoint, options)] *)
Definition post (request : APIRequestContext) (endpoint : string)
    (options : PostOptions) : Js APIResponse :=
  fun w => (request (events w) endpoint options, emit (Post endpoint options) w).

(** ** POSIX [path.join] *)

Module Path.

Fixpoint split (cur path : string) : list string :=
  match path with
  | EmptyString => [cur]
  | String c rest =>
      if Ascii.eqb c "/" then cur :: split "" rest
      else split (cur +:+ String c "") rest
  end.

Definition step (allowAboveRoot : bool) (res : list string) (seg : string)
    : list string :=
  if String.eqb seg "" || String.eqb seg "." then res
  else if String.eqb seg ".." then
    match last res with
    | Some l =>
        if String.eqb l ".." then
          (if allowAboveRoot then res ++ [".."] else res)
        else removelast res
    | None => if allowAboveRoot then [".."] else []
    end
  else res ++ [seg].

Definition normalizeString (path : string) (allowAboveRoot : bool) : string :=
  String.concat "/" (fold_left (step allowAboveRoot) (split "" path) []).

Definition isAbsolute (path : string) : bool :=
  match path with String c _ => Ascii.eqb c "/" | EmptyString => false end.

Definition trailingSeparator (path : string) : bool :=
  match last (chars path) with Some c => Ascii.eqb c "/" | None => false end.

Definition normalize (path : string) : string :=
  if String.eqb path "" then "."
  else
    let p := normalizeString path (negb (isAbsolute path)) in
    if String.eqb p "" then
      (if isAbsolute path then "/"
       else if trailingSeparator path then "./" else ".")
    else
      let p := if trailingSeparator path then p +:+ "/" else p in
      if isAbsolute path then "/" +:+ p else p.

Definition join (parts : list string) : string :=
  match filter (fun p => p <> "") parts with
  | [] => "."
  | parts' => normalize (String.concat "/" parts')
  end.

End Path.

(** ** Rendering *)

Inductive JsValue :=
| JString (s : string)
| JNumber (z : Z)
| JBoolean (b : bool).

(** A compiled Handlebars template: applied to the data it returns
    the rendered text or throws. *)
Definition TemplateDelegate : Type := gmap string JsValue -> Completion string.

Section Render.

(** [__dirname] of the utilities module. *)
Variable dirname : string.

(** [Handlebars.compile], the templating library. *)
Variable Handlebars_compile : string -> TemplateDelegate.

Definition templatePath (templateName : string) : string :=
  Path.join [dirname; "../api/requests"; templateName +:+ ".xml"].

Definition loadSoapTemplate (templateName : string) : Js TemplateDelegate :=
  templateContent <- readFileSync (templatePath templateName) ;;
  ret (Handlebars_compile templateContent).

Definition processSoapTemplate (templateName : string)
    (data : gmap string JsValue) : Js string :=
  template <- loadSoapTemplate templateName ;;
  lift (template data).

End Render.

(** ** Sending *)

(** Truthiness of an optional string argument. *)
Definition truthy (s : option string) : bool :=
  match s with
  | Some s => negb (String.eqb s "")
  | None => false
  end.

(** [s || d] *)
Definition or_else (s : option string) (d : string) : string :=
  match s with
  | Some v => if String.eqb v "" then d else v
  | None => d
  end.

(** The [headers] object as it stands when the request is posted. *)
Definition headers (bearerToken action : option string) : gmap string string :=
  let headers : gmap string string :=
    <["User-Agent" := "Playwright SOAP Client/1.0"]>
      (<["SOAPAction" := or_else action ""]>
         (<["Accept" := "text/xml"]>
            (<["Content-Type" := "text/xml;charset=UTF-8"]> ∅))) in
  if truthy bearerToken
  then <["Authorization" := "Bearer " +:+ default "" bearerToken]> headers
  else headers.

Definition sendSoapRequest (request : APIRequestContext)
    (endpoint payload : string) (bearerToken action : option string)
    : Js APIResponse :=
  let headers := headers bearerToken action in
  console_log [LStr ("Sending SOAP request to: " +:+ endpoint)] ;;;
  try_catch
    (response <- post request endpoint
                   {| post_headers := headers; post_data := payload |} ;;
     (if (status response =? 403)%Z then
        console_error [LStr "403 Forbidden Error Details:"] ;;;
        console_error [LStr "- Check if your bearer token is valid and not expired"] ;;;
        console_error [LStr "- Verify if additional headers are required"] ;;;
        console_error [LStr "- Ensure your IP address is allowed to access the service"] ;;;
        console_error [LStr "Response headers:"; LHeaders (headersArray response)]
      else ret tt) ;;;
     ret response)
    (fun error =>
       console_error [LStr "Error sending SOAP request:"; LExn error] ;;;
       throw error).

(** The line logged before the request goes out. *)
Definition sending_line (endpoint : string) : Event :=
  ConsoleLog [LStr ("Sending SOAP request to: " +:+ endpoint)].

(** The requests a run has posted. *)
Definition posts (evs : list Event) : list (string * PostOptions) :=
  omap (fun e => match e with Post ep o => Some (ep, o) | _ => None end) evs.

Definition initial (files : gmap string FsNode) : World :=
  {| fs := files; events := [] |}.

(** ** The test suite, [tests/soap.spec.ts] *)

(** A number inside a template literal. *)
Definition number_to_string (z : Z) : string :=
  NilEmpty.string_of_int (Z.to_int z).

(** [s.includes(sub)] *)
Fixpoint includes (s sub : string) : bool :=
  if String.prefix sub s then true
  else match s with
       | EmptyString => false
       | String _ s' => includes s' sub
       end.

(** [expect(...)] with a matcher: it throws when the matcher fails. *)
Definition expect (holds : bool) (matcher : string) : Js unit :=
  if holds then ret tt else throw (Thrown ("expect: " +:+ matcher)).

(** The value held by a variable assigned from the extractor. *)
Definition value_of (e : Extracted) : option string :=
  match e with
  | Returned v => v
  | Unmodelled => None
  end.

(** The lines written to the console, in order. *)
Definition console (evs : list Event) : list Event :=
  List.filter (fun e => match e with
                        | ConsoleLog _ | ConsoleError _ => true
                        | _ => false
                        end) evs.

(** [responseBody.substring(0, 500) + (responseBody.length > 500 ? '...' : '')] *)
Definition body_preview (responseBody : string) : string :=
  String.substring 0 500 responseBody +:+
  (if (500 <? String.length responseBody)%nat then "..." else "").

(** The [requestData] object of the weather test. *)
Definition weatherRequestData (today : string) : gmap string JsValue :=
  <["sessionId" := JString "test-session-123"]>
    (<["date" := JString today]>
       (<["country" := JString "US"]>
          (<["cityCode" := JString "NYC"]> ∅))).

(** The [requestData] object of the invalid-city test. *)
Definition invalidCityRequestData (today : string) : gmap string JsValue :=
  <["date" := JString today]>
    (<["country" := JString "US"]>
       (<["cityCode" := JString "INVALID"]> ∅)).

Section Suite.

(** [process.env] *)
Variable env : gmap string string.

(** [__dirname] of the utilities module and of the test file. *)
Variable utils_dirname tests_dirname : string.

Variable Handlebars_compile : string -> TemplateDelegate.

(** [response.statusText()] *)
Variable statusText : APIResponse -> string.

(** [new Date().toISOString().split('T')[0]] *)
Variable today : string.

Definition SOAP_ENDPOINT : string :=
  or_else (env !! "SOAP_ENDPOINT") "https://example.com/soap".

Definition AUTH_TOKEN : string :=
  or_else (env !! "AUTH_TOKEN") "".

Definition logResponseDetails (response : APIResponse) : Js unit :=
  console_log [LStr ("Response status: " +:+ number_to_string (status response))] ;;;
  console_log [LStr ("Response status text: " +:+ statusText response)] ;;;
  (let responseBody := text response in
   console_log [LStr "Response body:"; LStr (body_preview responseBody)] ;;;
   (let headers := headersArray response in
    console_log [LStr "Response headers:"; LHeaders headers])).

Definition expectedResponsePath : string :=
  Path.join [tests_dirname; "../api/responses/getWeatherResponse.xml"].

(** The SOAPAction the weather test passes. *)
Definition weather_action : string := "http://example.com/weather/GetWeather".

(** 'should get weather for New York' *)
Definition weather_test (request : APIRequestContext) : Js unit :=
  let requestData := weatherRequestData today in
  soapPayload <- processSoapTemplate utils_dirname Handlebars_compile
                   "getWeatherRequest" requestData ;;
  console_log [LStr "SOAP Request Payload:"; LStr soapPayload] ;;;
  response <- sendSoapRequest request SOAP_ENDPOINT soapPayload (Some AUTH_TOKEN)
                (Some weather_action) ;;
  (if (status response =? 403)%Z then
     logResponseDetails response ;;;
     console_log [LStr "Received 403 Forbidden. See logs above for details."]
   else ret tt) ;;;
  expect (status response =? 200)%Z "toBe" ;;;
  (let responseBody := text response in
   let cityCode := value_of (extractXmlValue responseBody "cityCode") in
   let temperature := value_of (extractXmlValue responseBody "temperature") in
   let success := value_of (extractXmlValue responseBody "success") in
   expect (bool_decide (cityCode = Some "NYC")) "toBe" ;;;
   expect (bool_decide (temperature <> None)) "not.toBeNull" ;;;
   expect (bool_decide (success = Some "true")) "toBe" ;;;
   expectedResponse <- readFileSync expectedResponsePath ;;
   expect (includes responseBody "<GetWeatherResponse") "toContain" ;;;
   expect (includes responseBody "<temperature>") "toContain").

(** 'should handle error response for invalid city' *)
Definition invalid_city_test (request : APIRequestContext) : Js unit :=
  let requestData := invalidCityRequestData today in
  soapPayload <- processSoapTemplate utils_dirname Handlebars_compile
                   "getWeatherRequest" requestData ;;
  response <- sendSoapRequest request SOAP_ENDPOINT soapPayload (Some AUTH_TOKEN) None ;;
  expect (status response =? 400)%Z "toBe" ;;;
  (let responseBody := text response in
   expect (includes responseBody "error") "toContain").

End Suite.

(** The lines [logResponseDetails] writes. *)
Definition details_lines (statusText : APIResponse -> string) (response : APIResponse)
    : list Event :=
  [ConsoleLog [LStr ("Response status: " +:+ number_to_string (status response))];
   ConsoleLog [LStr ("Response status text: " +:+ statusText response)];
   ConsoleLog [LStr "Response body:"; LStr (body_preview (text response))];
   ConsoleLog [LStr "Response headers:"; LHeaders (headersArray response)]].

(** ** Loose occurrences: what a tag name with dots matches *)

(** [u] reads like the name [t]: the same characters, except that
    where [t] has a dot [u] has any character but a line terminator. *)
Definition reads_like (t u : list ascii) : Prop :=
  Forall2 (fun c d => RegExp.accepts (RegExp.char_matcher c) d = true) t u.

(** [xml] reads [pre <u> v </u'> post] with [u] and [u'] both reading
    like [t] and [v] a non-empty run of characters other than [<]. *)
Definition loose_occurrence (xml t pre v post : string) : Prop :=
  exists u u' : string,
    xml = pre +:+ "<" +:+ u +:+ ">" +:+ v +:+ "</" +:+ u' +:+ ">" +:+ post
    /\ reads_like (chars t) (chars u) /\ reads_like (chars t) (chars u')
    /\ v <> "" /\ ~ In "<"%char (chars v).

Definition loose_occurs_before (xml t : string) (n : nat) : Prop :=
  exists pre v post, loose_occurrence xml t pre v post /\ (String.length pre < n)%nat.

(** The element [<t>v</t>]. *)
Definition element (t v : string) : string :=
  "<" +:+ t +:+ ">" +:+ v +:+ "</" +:+ t +:+ ">".

(** ** Flat records *)

(** A local name without dots: it stands for itself in a pattern. *)
Definition is_plain_name (t : string) : bool :=
  is_local_name t && is_literal_name t.

(** The elements of the fields, one after the other. *)
Definition record_text (fields : list (string * string)) : string :=
  fold_right (fun nv acc => element nv.1 nv.2 +:+ acc) "" fields.

(** The fields inside a root element. *)
Definition wrapped (root : string) (fields : list (string * string)) : string :=
  "<" +:+ root +:+ ">" +:+ record_text fields +:+ "</" +:+ root +:+ ">".

(** The value of the first field named [t] whose value is not empty. *)
Definition first_value (t : string) (fields : list (string * string)) : option string :=
  snd <$> List.find (fun nv => String.eqb nv.1 t && negb (String.eqb nv.2 "")) fields.

(** A field with a plain name and a value free of [<]. *)
Definition is_field (nv : string * string) : Prop :=
  is_plain_name nv.1 = true /\ ~ In "<"%char (chars nv.2).

(** ** What the sender writes *)

(** The lines written for a 403 response. *)
Definition forbidden_lines (response : APIResponse) : list Event :=
  [ConsoleError [LStr "403 Forbidden Error Details:"];
   ConsoleError [LStr "- Check if your bearer token is valid and not expired"];
   ConsoleError [LStr "- Verify if additional headers are required"];
   ConsoleError [LStr "- Ensure your IP address is allowed to access the service"];
   ConsoleError [LStr "Response headers:"; LHeaders (headersArray response)]].

(** The lines written once the transport call has completed. *)
Definition after_post (outcome : Completion APIResponse) : list Event :=
  match outcome with
  | Normal response =>
      if (status response =? 403)%Z then forbidden_lines response else []
  | Throw error => [ConsoleError [LStr "Error sending SOAP request:"; LExn error]]
  end.

(** ** Sample data *)

Definition weather_files : gmap string FsNode :=
  {[ "/repo/api/requests/getWeatherRequest.xml" :=
       File "<GetWeather><cityCode>{{cityCode}}</cityCode></GetWeather>" ]}.

Definition weather_data : gmap string JsValue :=
  {[ "cityCode" := JString "NYC" ]}.

(** A stand-in for the templating library: it returns the template
    text as it is. *)
Definition echo_template : string -> TemplateDelegate :=
  fun content _ => Normal content.

(** The template file, a path that runs through it as if it were a
    directory, and a directory where a template is looked for. *)
Definition blocked_files : gmap string FsNode :=
  <["/repo/api/requests/getWeatherRequest.xml/x.xml" := Unresolved "ENOTDIR"]>
    (<["/repo/api/requests.xml" := Directory]> weather_files).

(** A world with the same template, another file, and a past. *)
Definition later_world : World :=
  {| fs := <["/repo/.env" := File "AUTH_TOKEN=x"]> weather_files;
     events := [ConsoleLog [LStr "started"]] |}.

(** A passing response, a failing one, and the transport that gives
    a fixed answer. *)
Definition weather_response : APIResponse :=
  {| status := 200;
     headersArray := [("Content-Type", "text/xml")];
     text := "<GetWeatherResponse><cityCode>NYC</cityCode><temperature>72</temperature><success>true</success></GetWeatherResponse>" |}.

Definition error_response : APIResponse :=
  {| status := 400;
     headersArray := [("Content-Type", "text/xml")];
     text := "<Fault>error: unknown city</Fault>" |}.

Definition answering (response : APIResponse) : APIRequestContext :=
  fun _ _ _ => Normal response.

Definition reason_phrase (response : APIResponse) : string :=
  if (status response =? 200)%Z then "OK" else "Error".

Definition suite_files : gmap string FsNode :=
  <["/repo/api/responses/getWeatherResponse.xml" := File "<GetWeatherResponse/>"]>
    weather_files.

Definition other_suite_files : gmap string FsNode :=
  <["/repo/api/responses/getWeatherResponse.xml" := File "something else"]>
    weather_files.

(** * Properties *)

(** ** Strings and character lists *)

Lemma chars_app (a b : string) : chars (a +:+ b) = chars a ++ chars b.
Proof. induction a as [|c a IH]; simpl; [reflexivity | now rewrite IH]. Qed.

Lemma str_app (a b : list ascii) : str (a ++ b) = str a +:+ str b.
Proof. induction a as [|c a IH]; simpl; [reflexivity | now rewrite IH]. Qed.

Lemma chars_inj (a b : string) : chars a = chars b -> a = b.
Proof.
  intros H. rewrite <- (string_of_list_ascii_of_string a),
    <- (string_of_list_ascii_of_string b). now rewrite H.
Qed.

Lemma chars_nil (a : string) : chars a = [] <-> a = "".
Proof. destruct a; simpl; split; congruence. Qed.

Lemma str_nil (l : list ascii) : str l = "" <-> l = [].
Proof. destruct l; simpl; split; congruence. Qed.

Lemma chars_length (a : string) : length (chars a) = String.length a.
Proof. induction a; simpl; congruence. Qed.

(** ** The matcher *)

Module RegExpFacts.
Import RegExp.

Lemma read_simple (l rest : list ascii) :
  forallb is_simple_char l = true ->
  read Top (l ++ rest) = (app (map char_term l)) <$> read Top rest.
Proof.
  induction l as [|c l IH]; simpl; intros H.
  - now destruct (read Top rest).
  - apply andb_true_iff in H as [Hc Hl]. rewrite (IH Hl).
    unfold is_simple_char in Hc. unfold char_term, char_matcher.
    destruct (Ascii.eqb_spec c "(") as [->|_]; [discriminate Hc|].
    destruct (Ascii.eqb_spec c ".") as [->|_].
    + now destruct (read Top rest).
    + rewrite orb_false_r in Hc. apply negb_true_iff in Hc. rewrite Hc.
      now destruct (read Top rest).
Qed.

Lemma compile_simple (t : string) :
  forallb is_simple_char (chars t) = true ->
  compile (pattern_source t) = Some (tag_pattern (chars t)).
Proof.
  intros H. unfold compile, pattern_source, tag_pattern.
  rewrite !chars_app. cbn [chars app]. cbn [read Ascii.eqb Bool.eqb is_syntax_char existsb chars orb].
  rewrite (read_simple _ _ H). cbn [read Ascii.eqb Bool.eqb is_syntax_char existsb chars orb app].
  rewrite (read_simple _ _ H). cbn.
  reflexivity.
Qed.

(** *** What a successful match looks like *)

Lemma plus_greedy_sound {R} m (k : list ascii -> list ascii -> option R) s :
  forall taken r,
    plus_greedy m k taken s = Some r ->
    exists v rest, s = v ++ rest /\ v <> [] /\ all_accepted m v /\
                   k (taken ++ v) rest = Some r.
Proof.
  induction s as [|c s IH]; simpl; intros taken r H; [discriminate|].
  destruct (accepts m c) eqn:Hc; [|discriminate].
  destruct (plus_greedy m k (taken ++ [c]) s) as [r'|] eqn:Hin.
  - injection H as <-. destruct (IH _ _ Hin) as (v & rest & -> & _ & Hv & Hk).
    exists (c :: v), rest. rewrite <- app_assoc in Hk.
    repeat split; [discriminate | now constructor | exact Hk].
  - exists [c], s. repeat split; [discriminate | now repeat constructor | exact H].
Qed.

(** When the continuation cannot start with a character the
    repetition accepts, backtracking never finds a second way. *)
Lemma plus_greedy_complete {R} m (k : list ascii -> list ascii -> option R) :
  (forall got c rest, accepts m c = true -> k got (c :: rest) = None) ->
  forall v rest taken r,
    v <> [] -> all_accepted m v -> k (taken ++ v) rest = Some r ->
    plus_greedy m k taken (v ++ rest) = Some r.
Proof.
  intros Hk v. induction v as [|c v IH]; intros rest taken r Hne Hv Hr; [easy|].
  inversion Hv as [|? ? Hc Hv']; subst. simpl. rewrite Hc.
  destruct v as [|c' v].
  - simpl in *.
    destruct (plus_greedy m k (taken ++ [c]) rest) as [r'|] eqn:Hin; [|exact Hr].
    destruct (plus_greedy_sound _ _ _ _ _ Hin) as (v2 & rest2 & -> & Hne2 & Hv2 & _).
    destruct v2 as [|c2 v2]; [easy|]. inversion Hv2; subst.
    simpl in Hr. rewrite Hk in Hr by assumption. discriminate.
  - rewrite (IH rest (taken ++ [c]) r); [reflexivity | discriminate | assumption |].
    now rewrite <- app_assoc.
Qed.

(** Every match consumes at least one character per term, and every
    capture it records is non-empty. *)
Lemma run_sound p :
  forall caps s r,
    run p caps s = Some r ->
    (length p <= length s)%nat /\
    exists new, r = caps ++ new /\ Forall (fun g => g <> []) new.
Proof.
  induction p as [|[m|m] p IH]; simpl; intros caps s r H.
  - injection H as <-. split; [lia|]. exists []. now rewrite app_nil_r.
  - destruct s as [|c s]; [discriminate|].
    destruct (accepts m c); [|discriminate].
    apply IH in H as [Hlen Hnew]. split; [simpl; lia | exact Hnew].
  - apply plus_greedy_sound in H as (v & rest & -> & Hne & _ & Hk).
    apply IH in Hk as [Hlen (new & -> & Hnew)]. split.
    + rewrite length_app. destruct v; [easy|]. simpl. lia.
    + exists (v :: new). rewrite <- app_assoc. split; [reflexivity|].
      constructor; assumption.
Qed.

Lemma search_sound p s r :
  search p s = Some r ->
  (length p <= length s)%nat /\ Forall (fun g => g <> []) r.
Proof.
  induction s as [|c s IH]; simpl.
  - destruct (run p [] []) eqn:Hrun; [|discriminate].
    intros [= <-]. apply run_sound in Hrun as [Hlen (new & -> & Hnew)].
    split; assumption.
  - destruct (run p [] (c :: s)) eqn:Hrun.
    + intros [= <-]. apply run_sound in Hrun as [Hlen (new & -> & Hnew)].
      split; assumption.
    + intros H. apply IH in H as [Hlen Hr]. split; [simpl; lia | exact Hr].
Qed.

(** Leftmost-match characterisation of [search]. *)
Lemma search_some p s r :
  search p s = Some r <->
  exists pre s', s = pre ++ s' /\ run p [] s' = Some r /\
    forall pre2 s2, s = pre2 ++ s2 -> (length pre2 < length pre)%nat ->
                    run p [] s2 = None.
Proof.
  induction s as [|c s IH]; simpl.
  - destruct (run p [] []) as [r'|] eqn:Hrun; split.
    + intros [= <-]. exists [], []. repeat split; [exact Hrun|].
      intros ? ? _ Hlt. simpl in Hlt. lia.
    + intros (pre & s' & Hs & Hr & _). symmetry in Hs.
      apply app_eq_nil in Hs as [-> ->]. congruence.
    + discriminate.
    + intros (pre & s' & Hs & Hr & _). symmetry in Hs.
      apply app_eq_nil in Hs as [-> ->]. congruence.
  - destruct (run p [] (c :: s)) as [r'|] eqn:Hrun; split.
    + intros [= <-]. exists [], (c :: s). repeat split; [exact Hrun|].
      intros ? ? _ Hlt. simpl in Hlt. lia.
    + intros (pre & s' & Hs & Hr & Hfirst).
      destruct pre as [|c' pre].
      * simpl in Hs. subst s'. congruence.
      * rewrite (Hfirst [] (c :: s)) in Hrun; [discriminate | reflexivity | simpl; lia].
    + intros H. apply IH in H as (pre & s' & -> & Hr & Hfirst).
      exists (c :: pre), s'. repeat split; [exact Hr|].
      intros pre2 s2 Hs Hlt. destruct pre2 as [|c2 pre2].
      * simpl in Hs. subst s2. exact Hrun.
      * injection Hs as <- Hs. apply (Hfirst pre2 s2 Hs). simpl in Hlt. lia.
    + intros (pre & s' & Hs & Hr & Hfirst).
      destruct pre as [|c' pre].
      * simpl in Hs. subst s'. congruence.
      * injection Hs as <- ->. apply IH. exists pre, s'.
        repeat split; [exact Hr|].
        intros pre2 s2 Hs Hlt. apply (Hfirst (c :: pre2) s2).
        -- simpl. now rewrite Hs.
        -- simpl. lia.
Qed.

Lemma search_none p s :
  search p s = None <->
  forall pre s', s = pre ++ s' -> run p [] s' = None.
Proof.
  induction s as [|c s IH]; simpl.
  - destruct (run p [] []) as [r'|] eqn:Hrun; split.
    + discriminate.
    + intros H. now rewrite (H [] []) in Hrun.
    + intros _ pre s' Hs. symmetry in Hs.
      apply app_eq_nil in Hs as [-> ->]. exact Hrun.
    + reflexivity.
  - destruct (run p [] (c :: s)) as [r'|] eqn:Hrun; split.
    + discriminate.
    + intros H. now rewrite (H [] (c :: s)) in Hrun.
    + intros H pre s' Hs. destruct pre as [|c' pre].
      * simpl in Hs. now subst s'.
      * injection Hs as <- ->. exact (proj1 IH H pre s' eq_refl).
    + intros H. apply IH. intros pre s' ->. now apply (H (c :: pre) s').
Qed.

(** *** Matching the pattern of a literal tag name *)

Lemma run_lit c p caps s r :
  run (One (Lit c) :: p) caps s = Some r <->
  exists rest, s = c :: rest /\ run p caps rest = Some r.
Proof.
  simpl. destruct s as [|c' s].
  - split; [discriminate | intros (? & ? & _); discriminate].
  - destruct (Ascii.eqb_spec c' c) as [->|Hne]; split.
    + intros H. now exists s.
    + intros (rest & [= <-] & H). exact H.
    + discriminate.
    + intros (rest & [= -> <-] & _). now destruct Hne.
Qed.

Lemma run_capture m p caps s :
  run (CapturePlus m :: p) caps s =
  plus_greedy m (fun got rest => run p (caps ++ [got]) rest) [] s.
Proof. reflexivity. Qed.

Lemma run_literals l p caps s r :
  is_literal l = true ->
  run (map char_term l ++ p) caps s = Some r <->
  exists rest, s = l ++ rest /\ run p caps rest = Some r.
Proof.
  intros Hl. revert s. induction l as [|c l IH]; intros s.
  - simpl. split; [intros H; now exists s | now intros (rest & -> & H)].
  - simpl in Hl. apply andb_true_iff in Hl as [Hc Hl].
    assert (Hterm : char_term c = One (Lit c)).
    { unfold char_term, char_matcher.
      destruct (Ascii.eqb_spec c ".") as [->|_]; [discriminate Hc | reflexivity]. }
    cbn [map app]. rewrite Hterm, run_lit. split.
    + intros (rest & -> & H). apply (IH Hl) in H as (rest' & -> & H).
      now exists rest'.
    + intros (rest & -> & H). exists (l ++ rest). split; [reflexivity|].
      apply (IH Hl). now exists rest.
Qed.

Lemma accepted_not_lt v :
  all_accepted (NotOf ["<"%char]) v <-> ~ In "<"%char v.
Proof.
  unfold all_accepted. rewrite Forall_forall. simpl. split.
  - intros H Hin. apply list_elem_of_In, H in Hin. discriminate Hin.
  - intros H c Hc. apply list_elem_of_In in Hc.
    destruct (Ascii.eqb_spec c "<") as [->|_]; [now destruct H | reflexivity].
Qed.

Lemma run_tag_literal l s r :
  is_literal l = true ->
  run (tag_pattern l) [] s = Some r <->
  exists v post, starts_with_element l s v post /\ r = [v].
Proof.
  intros Hl. unfold tag_pattern, starts_with_element. split.
  - intros H. apply run_lit in H as (s1 & -> & H).
    apply (run_literals _ _ _ _ _ Hl) in H as (s2 & -> & H).
    apply run_lit in H as (s3 & -> & H). rewrite run_capture in H.
    apply plus_greedy_sound in H as (v & s4 & -> & Hne & Hv & H).
    cbv beta in H. apply run_lit in H as (s5 & -> & H). apply run_lit in H as (s6 & -> & H).
    apply (run_literals _ _ _ _ _ Hl) in H as (s7 & -> & H).
    apply run_lit in H as (post & -> & H). simpl in H. injection H as <-.
    exists v, post. repeat split; [assumption | now apply accepted_not_lt].
  - intros (v & post & (-> & Hne & Hv) & ->).
    apply run_lit. eexists. split; [reflexivity|].
    apply (run_literals _ _ _ _ _ Hl). eexists. split; [reflexivity|].
    apply run_lit. eexists. split; [reflexivity|]. rewrite run_capture.
    apply plus_greedy_complete.
    + intros got c rest Hc. simpl in Hc. simpl.
      destruct (Ascii.eqb c "<"); [discriminate Hc | reflexivity].
    + exact Hne.
    + now apply accepted_not_lt.
    + apply run_lit. eexists. split; [reflexivity|].
      apply run_lit. eexists. split; [reflexivity|].
      apply (run_literals _ _ _ _ _ Hl). eexists. split; [reflexivity|].
      apply run_lit. eexists. split; reflexivity.
Qed.

End RegExpFacts.

(** ** The extractor on literal tag names *)

Section Extractor.
Import RegExp RegExpFacts.

Lemma literal_simple l :
  is_literal l = true -> forallb is_simple_char l = true.
Proof.
  unfold is_literal. rewrite !forallb_forall. intros H c Hc.
  unfold is_simple_char. now rewrite (H c Hc).
Qed.

(** For a simple tag name the extractor is the leftmost search for
    the tag pattern, returning the first capture. *)
Lemma extract_simple xml t :
  forallb is_simple_char (chars t) = true ->
  extractXmlValue xml t =
  Returned (match search (tag_pattern (chars t)) (chars xml) with
            | Some (g :: _) => Some (str g)
            | _ => None
            end).
Proof.
  intros Ht. unfold extractXmlValue, exec. rewrite (compile_simple _ Ht).
  now destruct (search _ _) as [[|g gs]|].
Qed.

Lemma occurrence_run xml t pre v post :
  is_literal_name t = true ->
  occurrence xml t pre v post ->
  exists s', chars xml = chars pre ++ s' /\
             run (tag_pattern (chars t)) [] s' = Some [chars v].
Proof.
  intros Ht (-> & Hne & Hv). eexists. split.
  - rewrite chars_app. reflexivity.
  - apply (run_tag_literal _ _ _ Ht). exists (chars v), (chars post).
    split; [|reflexivity]. repeat split.
    + rewrite !chars_app. reflexivity.
    + now rewrite chars_nil.
    + exact Hv.
Qed.

Lemma run_occurrence xml t pre s' r :
  is_literal_name t = true ->
  chars xml = pre ++ s' ->
  run (tag_pattern (chars t)) [] s' = Some r ->
  exists v post, occurrence xml t (str pre) v post /\ r = [chars v].
Proof.
  intros Ht Hxml Hrun.
  apply (run_tag_literal _ _ _ Ht) in Hrun as (v & post & (-> & Hne & Hv) & ->).
  exists (str v), (str post). rewrite list_ascii_of_string_of_list_ascii.
  split; [|reflexivity]. repeat split.
  - apply chars_inj.
    rewrite Hxml, !chars_app, !list_ascii_of_string_of_list_ascii.
    reflexivity.
  - now rewrite str_nil.
  - now rewrite list_ascii_of_string_of_list_ascii.
Qed.

Lemma no_occurrence_none xml t :
  is_literal_name t = true ->
  search (tag_pattern (chars t)) (chars xml) = None <->
  ~ exists pre v post, occurrence xml t pre v post.
Proof.
  intros Ht. rewrite search_none. split.
  - intros Hnone (pre & v & post & Hocc).
    destruct (occurrence_run _ _ _ _ _ Ht Hocc) as (s' & Hs & Hrun).
    rewrite (Hnone _ _ Hs) in Hrun. discriminate.
  - intros Hno pre s' Hs.
    destruct (run _ _ s') as [r|] eqn:Hrun; [|reflexivity].
    destruct (run_occurrence _ _ _ _ _ Ht Hs Hrun) as (v & post & Hocc & _).
    destruct Hno. now exists (str pre), v, post.
Qed.

Lemma first_occurrence_some xml t v :
  is_literal_name t = true ->
  search (tag_pattern (chars t)) (chars xml) = Some [chars v] <->
  exists pre post, occurrence xml t pre v post /\
                   ~ occurs_before xml t (String.length pre).
Proof.
  intros Ht. rewrite search_some. split.
  - intros (pre & s' & Hs & Hrun & Hfirst).
    destruct (run_occurrence _ _ _ _ _ Ht Hs Hrun) as (v' & post & Hocc & Hv).
    injection Hv as Hv. apply chars_inj in Hv. subst v'.
    exists (str pre), post. split; [exact Hocc|].
    intros (pre2 & v2 & post2 & Hocc2 & Hlt).
    destruct (occurrence_run _ _ _ _ _ Ht Hocc2) as (s2 & Hs2 & Hrun2).
    rewrite (Hfirst _ _ Hs2) in Hrun2; [discriminate|].
    rewrite chars_length.
    now rewrite <- (chars_length (str pre)), list_ascii_of_string_of_list_ascii in Hlt.
  - intros (pre & post & Hocc & Hfirst).
    destruct (occurrence_run _ _ _ _ _ Ht Hocc) as (s' & Hs & Hrun).
    exists (chars pre), s'. repeat split; [exact Hs | exact Hrun |].
    intros pre2 s2 Hs2 Hlt.
    destruct (run _ _ s2) as [r|] eqn:Hrun2; [|reflexivity].
    destruct (run_occurrence _ _ _ _ _ Ht Hs2 Hrun2) as (v2 & post2 & Hocc2 & _).
    destruct Hfirst. exists (str pre2), v2, post2. split; [exact Hocc2|].
    rewrite <- (chars_length (str pre2)), <- (chars_length pre),
      list_ascii_of_string_of_list_ascii. exact Hlt.
Qed.

(** Whatever the search finds for a literal name is one capture. *)
Lemma search_single xml t r :
  is_literal_name t = true ->
  search (tag_pattern (chars t)) (chars xml) = Some r ->
  exists v, r = [chars v].
Proof.
  intros Ht H. apply search_some in H as (pre & s' & Hs & Hrun & _).
  destruct (run_occurrence _ _ _ _ _ Ht Hs Hrun) as (v & _ & _ & ->).
  now exists v.
Qed.

End Extractor.

(** ** Properties of [extractXmlValue] *)

Section ExtractorNames.
Import RegExp RegExpFacts.

Lemma name_char_simple c : is_name_char c = true -> is_simple_char c = true.
Proof.
  destruct c as [b0 b1 b2 b3 b4 b5 b6 b7].
  destruct b0, b1, b2, b3, b4, b5, b6, b7; vm_compute;
    intros H; first [reflexivity | discriminate H].
Qed.

Lemma local_name_simple t :
  is_local_name t = true -> forallb is_simple_char (chars t) = true.
Proof.
  unfold is_local_name. destruct (chars t) as [|c cs]; [discriminate|].
  intros H. apply andb_true_iff in H as [Hc Hcs]. simpl.
  apply andb_true_iff. split.
  - apply name_char_simple. unfold is_name_char. now rewrite Hc.
  - rewrite forallb_forall in *. intros x Hx. now apply name_char_simple, Hcs.
Qed.

Lemma tag_pattern_length l : length (tag_pattern l) = (2 * length l + 6)%nat.
Proof.
  unfold tag_pattern. cbn [length]. rewrite length_app. cbn [length].
  rewrite length_app, !length_map. simpl. lia.
Qed.

End ExtractorNames.

(** C1, as stated, fails: [a.b] is a bare local name, the text
    [<aXb>v</aXb>] has no [<a.b>...</a.b>] substring, and yet the
    extractor returns [v], because the dot of the name is read as the
    pattern wildcard. *)
Lemma extract_dot_name_matches_other_tag :
  is_local_name "a.b" = true /\
  (~ exists pre v post, occurrence "<aXb>v</aXb>" "a.b" pre v post) /\
  extractXmlValue "<aXb>v</aXb>" "a.b" = Returned (Some "v").
Proof.
  split; [reflexivity|]. split; [|reflexivity].
  intros (pre & v & post & (H & _)).
  assert (Hin : In "."%char (chars "<aXb>v</aXb>")).
  { rewrite H, !chars_app. apply in_or_app. right. simpl. tauto. }
  simpl in Hin. repeat (destruct Hin as [Hin|Hin]; [discriminate Hin|]).
  exact Hin.
Qed.

(** C1 (amended): for a tag name none of whose characters is a
    pattern syntax character, the extractor returns [null] exactly
    when the text has no [<t>v</t>] with [v] a non-empty run of
    characters other than [<], and returns [v] exactly when [v] is the
    inner text of the first such occurrence; on
    [<a><cityCode>NYC</cityCode></a>] and [cityCode] it returns
    [NYC]. *)
Theorem extract_literal_first_occurrence (xml t : string) :
  is_literal_name t = true ->
  (extractXmlValue xml t = Returned None <->
     ~ exists pre v post, occurrence xml t pre v post) /\
  (forall v, extractXmlValue xml t = Returned (Some v) <->
     exists pre post, occurrence xml t pre v post /\
                      ~ occurs_before xml t (String.length pre)) /\
  extractXmlValue "<a><cityCode>NYC</cityCode></a>" "cityCode" = Returned (Some "NYC").
Proof.
  intros Ht. rewrite (extract_simple xml t (literal_simple _ Ht)).
  split; [|split; [|reflexivity]].
  - rewrite <- (no_occurrence_none xml t Ht).
    destruct (RegExp.search _ _) as [r|] eqn:Hs; [|tauto].
    destruct (search_single _ _ _ Ht Hs) as (v & ->).
    split; discriminate.
  - intros v. rewrite <- (first_occurrence_some xml t v Ht).
    destruct (RegExp.search _ _) as [r|] eqn:Hs; [|split; discriminate].
    destruct (search_single _ _ _ Ht Hs) as (v' & ->).
    rewrite string_of_list_ascii_of_string. split.
    + now intros [= ->].
    + intros [= H]. apply chars_inj in H. now subst.
Qed.

Lemma extract_literal_first_occurrence_witness :
  is_literal_name "cityCode" = true /\
  ((extractXmlValue "<a><cityCode>NYC</cityCode></a>" "cityCode" = Returned None <->
     ~ exists pre v post,
         occurrence "<a><cityCode>NYC</cityCode></a>" "cityCode" pre v post) /\
   (forall v,
      extractXmlValue "<a><cityCode>NYC</cityCode></a>" "cityCode" = Returned (Some v) <->
      exists pre post,
        occurrence "<a><cityCode>NYC</cityCode></a>" "cityCode" pre v post /\
        ~ occurs_before "<a><cityCode>NYC</cityCode></a>" "cityCode" (String.length pre)) /\
   extractXmlValue "<a><cityCode>NYC</cityCode></a>" "cityCode" = Returned (Some "NYC")).
Proof.
  split; [reflexivity|].
  apply (extract_literal_first_occurrence "<a><cityCode>NYC</cityCode></a>" "cityCode").
  reflexivity.
Defined.

(** C2, as stated, fails: on [<x><![CDATA[<y>]]></x>] and [x] the
    extractor returns no string at all. *)
Lemma extract_cdata_returns_no_text :
  ~ exists v, extractXmlValue "<x><![CDATA[<y>]]></x>" "x" = Returned (Some v).
Proof. intros (v & H). vm_compute in H. discriminate H. Qed.

(** C2 (amended): on [<x><![CDATA[<y>]]></x>] and [x] the extractor
    returns the absence signal, since the content starts with [<]. *)
Theorem extract_cdata_absent :
  extractXmlValue "<x><![CDATA[<y>]]></x>" "x" = Returned None.
Proof. reflexivity. Qed.

(** C8: for every text, malformed or not, and every bare local name,
    the extractor returns: a string or the absence signal. *)
Theorem extract_total (xmlText tagName : string) :
  is_local_name tagName = true ->
  exists r, extractXmlValue xmlText tagName = Returned r.
Proof.
  intros Ht. rewrite (extract_simple _ _ (local_name_simple _ Ht)).
  eexists. reflexivity.
Qed.

Lemma extract_total_witness :
  is_local_name "soap.Body-1" = true /\
  exists r, extractXmlValue "<<a><soap.Body-1>&</b></soap.Body-1" "soap.Body-1" = Returned r.
Proof.
  split; [reflexivity|].
  apply (extract_total "<<a><soap.Body-1>&</b></soap.Body-1" "soap.Body-1").
  reflexivity.
Defined.

(** C10: for every bare local name the extractor never returns the
    empty string: it returns a non-empty string or the absence
    signal, and on [<t></t>] it returns the absence signal. *)
Theorem extract_never_empty (xml t : string) :
  is_local_name t = true ->
  (exists r, extractXmlValue xml t = Returned r /\ r <> Some "") /\
  extractXmlValue ("<" +:+ t +:+ "></" +:+ t +:+ ">") t = Returned None.
Proof.
  intros Ht. rewrite !(extract_simple _ _ (local_name_simple _ Ht)). split.
  - eexists. split; [reflexivity|].
    destruct (RegExp.search _ (chars xml)) as [r|] eqn:Hs; [|discriminate].
    apply RegExpFacts.search_sound in Hs as [_ Hr].
    destruct r as [|g r]; [discriminate|]. intros [= Hg].
    apply str_nil in Hg. inversion Hr; subst. congruence.
  - destruct (RegExp.search _ _) as [r|] eqn:Hs; [|reflexivity].
    apply RegExpFacts.search_sound in Hs as [Hlen _].
    rewrite tag_pattern_length, !chars_app in Hlen. simpl in Hlen.
    rewrite !length_app in Hlen. simpl in Hlen. rewrite !length_app in Hlen.
    simpl in Hlen. lia.
Qed.

Lemma extract_never_empty_witness :
  is_local_name "t" = true /\
  (exists r, extractXmlValue "<t></t>" "t" = Returned r /\ r <> Some "") /\
  extractXmlValue "<t></t>" "t" = Returned None.
Proof.
  split; [reflexivity|].
  apply (extract_never_empty "<t></t>" "t"). reflexivity.
Defined.

(** ** The sender *)

Lemma posts_app (evs evs' : list Event) : posts (evs ++ evs') = posts evs ++ posts evs'.
Proof. apply omap_app. Qed.

(** One run of the sender: its completion is the transport's, it
    posts once, with the constructed headers and the payload as body,
    and it leaves the file system alone. *)
Lemma send_run request endpoint payload bearerToken action w :
  let options := {| post_headers := headers bearerToken action;
                    post_data := payload |} in
  let out := sendSoapRequest request endpoint payload bearerToken action w in
  out.1 = request (events w ++ [sending_line endpoint]) endpoint options /\
  posts (events out.2) = posts (events w) ++ [(endpoint, options)] /\
  fs out.2 = fs w.
Proof.
  unfold sendSoapRequest, bind, try_catch, post, console_log, sending_line.
  cbn [events emit fst snd].
  destruct (request _ endpoint _) as [response|error].
  - destruct (status response =? 403)%Z; cbn -[headers];
      rewrite ?posts_app; cbn -[headers]; rewrite ?app_nil_r; auto.
  - cbn -[headers]. rewrite ?posts_app. cbn -[headers]. rewrite ?app_nil_r. auto.
Qed.

Lemma headers_authorization_token token action :
  token <> "" ->
  headers (Some token) action !! "Authorization" = Some ("Bearer " +:+ token).
Proof.
  intros Hne. unfold headers, truthy.
  destruct (String.eqb_spec token "") as [->|_]; [easy|]. simpl.
  apply lookup_insert_eq.
Qed.

Lemma headers_no_token action :
  headers None action !! "Authorization" = None.
Proof. unfold headers, truthy. now simplify_map_eq. Qed.

Lemma headers_empty_token action :
  headers (Some "") action = headers None action.
Proof. reflexivity. Qed.

Lemma headers_defaults bearerToken action :
  headers bearerToken action !! "Content-Type" = Some "text/xml;charset=UTF-8" /\
  headers bearerToken action !! "Accept" = Some "text/xml" /\
  headers bearerToken action !! "SOAPAction" = Some (or_else action "") /\
  headers bearerToken action !! "User-Agent" = Some "Playwright SOAP Client/1.0".
Proof. unfold headers. destruct (truthy bearerToken); now simplify_map_eq. Qed.

Lemma headers_dom bearerToken action :
  dom (headers bearerToken action) ⊆
  ({["Content-Type"; "Accept"; "SOAPAction"; "User-Agent"; "Authorization"]} : gset string).
Proof.
  unfold headers.
  destruct (truthy bearerToken); rewrite !dom_insert_L, dom_empty_L;
    intros k Hk; rewrite !elem_of_union, !elem_of_singleton in *;
    rewrite elem_of_empty in Hk; tauto.
Qed.

(** ** Properties of [sendSoapRequest] *)

(** C3, as stated, fails: the sender has no [extraHeaders] argument,
    so no call of it posts a request whose [Accept] header was
    overridden, say with [application/soap+xml]. *)
Lemma send_cannot_override_accept :
  ~ exists request endpoint payload bearerToken action files ep o,
      In (ep, o) (posts (events
        (sendSoapRequest request endpoint payload bearerToken action
           (initial files)).2)) /\
      post_headers o !! "Accept" = Some "application/soap+xml".
Proof.
  intros (request & endpoint & payload & tok & act & files & ep & o & Hin & Hacc).
  destruct (send_run request endpoint payload tok act (initial files)) as (_ & Hposts & _).
  rewrite Hposts in Hin. simpl in Hin. destruct Hin as [[= <- <-]|[]].
  simpl in Hacc. destruct (headers_defaults tok act) as (_ & Haccept & _).
  rewrite Haccept in Hacc. discriminate Hacc.
Qed.

(** C3 (amended): the header set the sender posts is built from
    [bearerToken] and [action] alone: the four defaults, then
    [Authorization] when a non-empty token was supplied; nothing else
    is merged in and no argument overrides a default. *)
Theorem send_headers_from_token_and_action
    request endpoint payload bearerToken action w :
  let out := sendSoapRequest request endpoint payload bearerToken action w in
  let hs := headers bearerToken action in
  posts (events out.2) =
    posts (events w) ++ [(endpoint, {| post_headers := hs; post_data := payload |})] /\
  hs !! "Content-Type" = Some "text/xml;charset=UTF-8" /\
  hs !! "Accept" = Some "text/xml" /\
  hs !! "SOAPAction" = Some (or_else action "") /\
  hs !! "User-Agent" = Some "Playwright SOAP Client/1.0" /\
  hs !! "Authorization" =
    (if truthy bearerToken then Some ("Bearer " +:+ default "" bearerToken) else None) /\
  dom hs ⊆
    ({["Content-Type"; "Accept"; "SOAPAction"; "User-Agent"; "Authorization"]} : gset string).
Proof.
  intros out hs. subst out hs.
  destruct (send_run request endpoint payload bearerToken action w) as (_ & Hposts & _).
  destruct (headers_defaults bearerToken action) as (Hct & Hacc & Hact & Hua).
  repeat split; try assumption.
  - unfold headers. destruct (truthy bearerToken); now simplify_map_eq.
  - apply headers_dom.
Qed.

(** C4: with the token [tok123] the posted header set has
    [Authorization] equal to [Bearer tok123]; without a token it has
    no [Authorization] entry. *)
Theorem send_authorization_header request endpoint payload action w :
  (exists o,
     posts (events (sendSoapRequest request endpoint payload (Some "tok123") action w).2)
       = posts (events w) ++ [(endpoint, o)] /\
     post_headers o !! "Authorization" = Some "Bearer tok123") /\
  (exists o,
     posts (events (sendSoapRequest request endpoint payload None action w).2)
       = posts (events w) ++ [(endpoint, o)] /\
     post_headers o !! "Authorization" = None).
Proof.
  split.
  - destruct (send_run request endpoint payload (Some "tok123") action w) as (_ & Hposts & _).
    eexists. split; [exact Hposts|]. cbn [post_headers].
    now apply (headers_authorization_token "tok123").
  - destruct (send_run request endpoint payload None action w) as (_ & Hposts & _).
    eexists. split; [exact Hposts|]. apply headers_no_token.
Qed.

(** C5: the sender completes exactly as the transport call does: it
    throws the transport's error when the call fails and returns the
    transport's response, whatever its status, when it answers; and
    it posts once. *)
Theorem send_completes_as_transport request endpoint payload bearerToken action w :
  let options := {| post_headers := headers bearerToken action;
                    post_data := payload |} in
  let transport := request (events w ++ [sending_line endpoint]) endpoint options in
  let out := sendSoapRequest request endpoint payload bearerToken action w in
  out.1 = transport /\
  match transport with
  | Normal response => out.1 = Normal response
  | Throw error => out.1 = Throw error
  end /\
  length (posts (events out.2)) = S (length (posts (events w))).
Proof.
  intros options transport out. subst options transport out.
  destruct (send_run request endpoint payload bearerToken action w) as (Hres & Hposts & _).
  split; [exact Hres|]. split.
  - rewrite Hres. now destruct (request _ _ _).
  - rewrite Hposts, length_app. simpl. lia.
Qed.

(** C9: an empty token is treated as no token: the header set is the
    same, it has no [Authorization] entry, and no token at all yields
    the header value [Bearer ] with nothing after it. *)
Theorem send_empty_token_omits_authorization request endpoint payload action w :
  sendSoapRequest request endpoint payload (Some "") action w =
    sendSoapRequest request endpoint payload None action w /\
  headers (Some "") action = headers None action /\
  headers (Some "") action !! "Authorization" = None /\
  (exists o,
     posts (events (sendSoapRequest request endpoint payload (Some "") action w).2)
       = posts (events w) ++ [(endpoint, o)] /\
     post_headers o !! "Authorization" = None) /\
  forall bearerToken, headers bearerToken action !! "Authorization" <> Some "Bearer ".
Proof.
  split; [reflexivity|]. split; [reflexivity|].
  split; [apply headers_no_token|]. split.
  - destruct (send_run request endpoint payload (Some "") action w) as (_ & Hposts & _).
    eexists. split; [exact Hposts|]. apply headers_no_token.
  - intros [token|]; [|now rewrite headers_no_token].
    destruct (String.eqb_spec token "") as [->|Hne].
    + now rewrite headers_empty_token, headers_no_token.
    + rewrite (headers_authorization_token _ _ Hne). intros [= H].
      now destruct token.
Qed.

(** ** Properties of [processSoapTemplate] *)

Lemma render_run dirname compile templateName data w :
  processSoapTemplate dirname compile templateName data w =
  (match fs w !! templatePath dirname templateName with
   | Some (File content) => compile content data
   | Some Directory =>
       Throw (ErrnoException "EISDIR" "read" (templatePath dirname templateName))
   | Some (Unresolved code) =>
       Throw (ErrnoException code "open" (templatePath dirname templateName))
   | None =>
       Throw (ErrnoException "ENOENT" "open" (templatePath dirname templateName))
   end,
   emit (ReadFile (templatePath dirname templateName)) w).
Proof.
  unfold processSoapTemplate, loadSoapTemplate, bind, readFileSync, ret, lift.
  now destruct (fs w !! _) as [[content| |code]|].
Qed.

(** C6: rendering is deterministic and pure: two calls with the same
    template name and data, in worlds where the template resource has
    the same content, complete alike, also when the second call
    follows the first; and a call changes nothing but for reading that
    one file. *)
Theorem render_deterministic dirname compile templateName data (w1 w2 : World) :
  fs w1 !! templatePath dirname templateName = fs w2 !! templatePath dirname templateName ->
  let render := processSoapTemplate dirname compile templateName data in
  (render w1).1 = (render w2).1 /\
  (render (render w1).2).1 = (render w1).1 /\
  (render w1).2 = emit (ReadFile (templatePath dirname templateName)) w1 /\
  (render w2).2 = emit (ReadFile (templatePath dirname templateName)) w2.
Proof.
  intros Hsame render. subst render. rewrite !render_run. cbn [fst snd emit fs].
  rewrite Hsame. repeat split; reflexivity.
Qed.

Lemma render_deterministic_witness :
  fs (initial weather_files) !! templatePath "/repo/utils" "getWeatherRequest" =
  fs later_world !! templatePath "/repo/utils" "getWeatherRequest" /\
  let render :=
    processSoapTemplate "/repo/utils" echo_template "getWeatherRequest" weather_data in
  (render (initial weather_files)).1 = (render later_world).1 /\
  (render (render (initial weather_files)).2).1 = (render (initial weather_files)).1 /\
  (render (initial weather_files)).2 =
    emit (ReadFile (templatePath "/repo/utils" "getWeatherRequest")) (initial weather_files) /\
  (render later_world).2 =
    emit (ReadFile (templatePath "/repo/utils" "getWeatherRequest")) later_world.
Proof.
  split; [vm_compute; reflexivity|].
  apply (render_deterministic "/repo/utils" echo_template "getWeatherRequest"
           weather_data (initial weather_files) later_world).
  vm_compute; reflexivity.
Defined.



(** The three ways a template can be missing, on concrete worlds. *)
Example render_missing_codes :
  (processSoapTemplate "/repo/utils" echo_template "noSuchRequest" weather_data
     (initial weather_files)).1 =
    Throw (ErrnoException "ENOENT" "open" "/repo/api/requests/noSuchRequest.xml") /\
  (processSoapTemplate "/repo/utils" echo_template "getWeatherRequest.xml/x" weather_data
     (initial blocked_files)).1 =
    Throw (ErrnoException "ENOTDIR" "open"
             "/repo/api/requests/getWeatherRequest.xml/x.xml") /\
  (processSoapTemplate "/repo/utils" echo_template "../requests" weather_data
     (initial blocked_files)).1 =
    Throw (ErrnoException "EISDIR" "read" "/repo/api/requests.xml").
Proof. repeat split. Qed.

(** The end-to-end scenario of the specification, on the extractor's side. *)
Example extract_weather_response :
  let body := "<GetWeatherResponse><cityCode>NYC</cityCode><temperature>72</temperature><success>true</success></GetWeatherResponse>" in
  extractXmlValue body "cityCode" = Returned (Some "NYC") /\
  extractXmlValue body "temperature" = Returned (Some "72") /\
  extractXmlValue body "success" = Returned (Some "true").
Proof. repeat split. Qed.

Example send_forbidden_is_returned :
  let forbidden := {| status := 403; headersArray := [("Server", "gw")]; text := "denied" |} in
  (sendSoapRequest (fun _ _ _ => Normal forbidden) "https://example.com/soap" "<a/>"
     (Some "tok123") None (initial ∅)).1 = Normal forbidden.
Proof. reflexivity. Qed.

Example send_transport_error_is_rethrown :
  (sendSoapRequest (fun _ _ _ => Throw (Thrown "ECONNREFUSED")) "https://example.com/soap"
     "<a/>" (Some "tok123") None (initial ∅)).1 = Throw (Thrown "ECONNREFUSED").
Proof. reflexivity. Qed.

Example join_template_path :
  templatePath "/repo/utils" "getWeatherRequest" = "/repo/api/requests/getWeatherRequest.xml".
Proof. reflexivity. Qed.

(** * Further properties *)

(** ** The matcher on names with dots *)

Section LooseMatching.
Import RegExp RegExpFacts.

Lemma run_one m p caps s r :
  run (One m :: p) caps s = Some r <->
  exists c rest, s = c :: rest /\ accepts m c = true /\ run p caps rest = Some r.
Proof.
  simpl. destruct s as [|c s].
  - split; [discriminate | intros (? & ? & ? & _); discriminate].
  - destruct (accepts m c) eqn:Hc; split.
    + intros H. now exists c, s.
    + intros (c' & rest & [= <- <-] & _ & H). exact H.
    + discriminate.
    + intros (c' & rest & [= <- <-] & Hc' & _). congruence.
Qed.

Lemma run_name_terms l p caps s r :
  run (map char_term l ++ p) caps s = Some r <->
  exists u rest, s = u ++ rest /\ reads_like l u /\ run p caps rest = Some r.
Proof.
  revert s. induction l as [|c l IH]; intros s.
  - simpl. split.
    + intros H. exists [], s. repeat split; [constructor | exact H].
    + intros (u & rest & -> & Hu & H). inversion Hu; subst. exact H.
  - cbn [map app]. unfold char_term at 1. rewrite run_one. split.
    + intros (d & s' & -> & Hd & H). apply IH in H as (u & rest & -> & Hu & H).
      exists (d :: u), rest. repeat split; [now constructor | exact H].
    + intros (u & rest & -> & Hu & H). inversion Hu as [|? d ? u' Hd Hu']; subst.
      exists d, (u' ++ rest). repeat split; [exact Hd|].
      apply IH. now exists u', rest.
Qed.

(** [s] starts with [<u>v</u'>], both names reading like [l]. *)
Lemma run_tag_loose l s r :
  run (tag_pattern l) [] s = Some r <->
  exists u v u' post,
    s = "<"%char :: u ++ ">"%char :: v ++ "<"%char :: "/"%char :: u' ++ ">"%char :: post
    /\ reads_like l u /\ reads_like l u' /\ v <> [] /\ ~ In "<"%char v /\ r = [v].
Proof.
  unfold tag_pattern. split.
  - intros H. apply run_lit in H as (s1 & -> & H).
    apply run_name_terms in H as (u & s2 & -> & Hu & H).
    apply run_lit in H as (s3 & -> & H). rewrite run_capture in H.
    apply plus_greedy_sound in H as (v & s4 & -> & Hne & Hv & H).
    cbv beta in H. apply run_lit in H as (s5 & -> & H).
    apply run_lit in H as (s6 & -> & H).
    apply run_name_terms in H as (u' & s7 & -> & Hu' & H).
    apply run_lit in H as (post & -> & H). simpl in H. injection H as <-.
    exists u, v, u', post. repeat split; try assumption.
    now apply accepted_not_lt.
  - intros (u & v & u' & post & -> & Hu & Hu' & Hne & Hv & ->).
    apply run_lit. eexists. split; [reflexivity|].
    apply run_name_terms. exists u. eexists. split; [reflexivity|]. split; [exact Hu|].
    apply run_lit. eexists. split; [reflexivity|]. rewrite run_capture.
    apply plus_greedy_complete.
    + intros got c rest Hc. simpl in Hc. simpl.
      destruct (Ascii.eqb c "<"); [discriminate Hc | reflexivity].
    + exact Hne.
    + now apply accepted_not_lt.
    + apply run_lit. eexists. split; [reflexivity|].
      apply run_lit. eexists. split; [reflexivity|].
      apply run_name_terms. exists u'. eexists. split; [reflexivity|].
      split; [exact Hu'|].
      apply run_lit. eexists. split; reflexivity.
Qed.

Lemma loose_occurrence_run xml t pre v post :
  loose_occurrence xml t pre v post ->
  exists s', chars xml = chars pre ++ s' /\
             run (tag_pattern (chars t)) [] s' = Some [chars v].
Proof.
  intros (u & u' & -> & Hu & Hu' & Hne & Hv). eexists. split.
  - rewrite chars_app. reflexivity.
  - apply run_tag_loose. exists (chars u), (chars v), (chars u'), (chars post).
    repeat split; try assumption.
    + rewrite !chars_app. reflexivity.
    + now rewrite chars_nil.
Qed.

Lemma run_loose_occurrence xml t pre s' r :
  chars xml = pre ++ s' ->
  run (tag_pattern (chars t)) [] s' = Some r ->
  exists v post, loose_occurrence xml t (str pre) v post /\ r = [chars v].
Proof.
  intros Hxml Hrun.
  apply run_tag_loose in Hrun as (u & v & u' & post & -> & Hu & Hu' & Hne & Hv & ->).
  exists (str v), (str post). rewrite list_ascii_of_string_of_list_ascii.
  split; [|reflexivity]. exists (str u), (str u').
  rewrite !list_ascii_of_string_of_list_ascii. repeat split; try assumption.
  - apply chars_inj.
    rewrite Hxml, !chars_app, !list_ascii_of_string_of_list_ascii.
    reflexivity.
  - now rewrite str_nil.
Qed.

Lemma search_loose_single xml t r :
  search (tag_pattern (chars t)) (chars xml) = Some r -> exists v, r = [chars v].
Proof.
  intros H. apply search_some in H as (pre & s' & Hs & Hrun & _).
  destruct (run_loose_occurrence _ _ _ _ _ Hs Hrun) as (v & _ & _ & ->).
  now exists v.
Qed.

Lemma no_loose_occurrence_none xml t :
  search (tag_pattern (chars t)) (chars xml) = None <->
  ~ exists pre v post, loose_occurrence xml t pre v post.
Proof.
  rewrite search_none. split.
  - intros Hnone (pre & v & post & Hocc).
    destruct (loose_occurrence_run _ _ _ _ _ Hocc) as (s' & Hs & Hrun).
    rewrite (Hnone _ _ Hs) in Hrun. discriminate.
  - intros Hno pre s' Hs.
    destruct (run _ _ s') as [r|] eqn:Hrun; [|reflexivity].
    destruct (run_loose_occurrence _ _ _ _ _ Hs Hrun) as (v & post & Hocc & _).
    destruct Hno. now exists (str pre), v, post.
Qed.

Lemma first_loose_occurrence_some xml t v :
  search (tag_pattern (chars t)) (chars xml) = Some [chars v] <->
  exists pre post, loose_occurrence xml t pre v post /\
                   ~ loose_occurs_before xml t (String.length pre).
Proof.
  rewrite search_some. split.
  - intros (pre & s' & Hs & Hrun & Hfirst).
    destruct (run_loose_occurrence _ _ _ _ _ Hs Hrun) as (v' & post & Hocc & Hv).
    injection Hv as Hv. apply chars_inj in Hv. subst v'.
    exists (str pre), post. split; [exact Hocc|].
    intros (pre2 & v2 & post2 & Hocc2 & Hlt).
    destruct (loose_occurrence_run _ _ _ _ _ Hocc2) as (s2 & Hs2 & Hrun2).
    rewrite (Hfirst _ _ Hs2) in Hrun2; [discriminate|].
    rewrite chars_length.
    now rewrite <- (chars_length (str pre)), list_ascii_of_string_of_list_ascii in Hlt.
  - intros (pre & post & Hocc & Hfirst).
    destruct (loose_occurrence_run _ _ _ _ _ Hocc) as (s' & Hs & Hrun).
    exists (chars pre), s'. repeat split; [exact Hs | exact Hrun |].
    intros pre2 s2 Hs2 Hlt.
    destruct (run _ _ s2) as [r|] eqn:Hrun2; [|reflexivity].
    destruct (run_loose_occurrence _ _ _ _ _ Hs2 Hrun2) as (v2 & post2 & Hocc2 & _).
    destruct Hfirst. exists (str pre2), v2, post2. split; [exact Hocc2|].
    rewrite <- (chars_length (str pre2)), <- (chars_length pre),
      list_ascii_of_string_of_list_ascii. exact Hlt.
Qed.

End LooseMatching.

(** X1: for every bare local name, dots included, the extractor
    returns [null] exactly when the text has no loose occurrence
    [<u>v</u'>] (names reading like [t], each dot standing for any
    character but a line terminator; [v] non-empty without [<]), and
    returns [v] exactly when [v] is the inner text of the first loose
    occurrence.  The opening and the closing name need not agree. *)
Theorem extract_first_loose_occurrence (xml t : string) :
  is_local_name t = true ->
  (extractXmlValue xml t = Returned None <->
     ~ exists pre v post, loose_occurrence xml t pre v post) /\
  (forall v, extractXmlValue xml t = Returned (Some v) <->
     exists pre post, loose_occurrence xml t pre v post /\
                      ~ loose_occurs_before xml t (String.length pre)).
Proof.
  intros Ht. rewrite (extract_simple xml t (local_name_simple _ Ht)). split.
  - rewrite <- (no_loose_occurrence_none xml t).
    destruct (RegExp.search _ _) as [r|] eqn:Hs; [|tauto].
    destruct (search_loose_single _ _ _ Hs) as (v & ->).
    split; discriminate.
  - intros v. rewrite <- (first_loose_occurrence_some xml t v).
    destruct (RegExp.search _ _) as [r|] eqn:Hs; [|split; discriminate].
    destruct (search_loose_single _ _ _ Hs) as (v' & ->).
    rewrite string_of_list_ascii_of_string. split.
    + now intros [= ->].
    + intros [= H]. apply chars_inj in H. now subst.
Qed.

Lemma extract_first_loose_occurrence_witness :
  is_local_name "a.b" = true /\
  ((extractXmlValue "<aXb>v</aYb>" "a.b" = Returned None <->
      ~ exists pre v post, loose_occurrence "<aXb>v</aYb>" "a.b" pre v post) /\
   (forall v, extractXmlValue "<aXb>v</aYb>" "a.b" = Returned (Some v) <->
      exists pre post, loose_occurrence "<aXb>v</aYb>" "a.b" pre v post /\
                       ~ loose_occurs_before "<aXb>v</aYb>" "a.b" (String.length pre))).
Proof.
  split; [reflexivity|].
  apply (extract_first_loose_occurrence "<aXb>v</aYb>" "a.b"). reflexivity.
Defined.

(** ** Walking over a text *)

Section Walking.
Import RegExp RegExpFacts.

Lemma search_here p s r : run p [] s = Some r -> search p s = Some r.
Proof. intros H. destruct s; simpl; now rewrite H. Qed.

Lemma search_next p c s : run p [] (c :: s) = None -> search p (c :: s) = search p s.
Proof. intros H. simpl. now rewrite H. Qed.

Lemma run_not_lt l c s : c <> "<"%char -> run (tag_pattern l) [] (c :: s) = None.
Proof.
  intros Hc. simpl. destruct (Ascii.eqb_spec c "<"); [contradiction | reflexivity].
Qed.

(** Characters other than [<] are passed over. *)
Lemma search_skip_text l x s :
  ~ In "<"%char x -> search (tag_pattern l) (x ++ s) = search (tag_pattern l) s.
Proof.
  induction x as [|c x IH]; intros Hx; [reflexivity|].
  cbn [app]. rewrite search_next.
  - apply IH. intros Hin. apply Hx. now right.
  - apply run_not_lt. intros ->. apply Hx. now left.
Qed.

Lemma run_fails l s :
  is_literal l = true ->
  (forall v post, ~ starts_with_element l s v post) ->
  run (tag_pattern l) [] s = None.
Proof.
  intros Hl Hno. destruct (run _ _ s) as [r|] eqn:Hrun; [|reflexivity].
  apply (run_tag_literal _ _ _ Hl) in Hrun as (v & post & Hocc & _).
  now destruct (Hno v post).
Qed.

Lemma split_at_gt (a b s1 s2 : list ascii) :
  ~ In ">"%char a -> ~ In ">"%char b ->
  a ++ ">"%char :: s1 = b ++ ">"%char :: s2 -> a = b.
Proof.
  revert b. induction a as [|c a IH]; intros [|d b] Ha Hb H; simpl in *.
  - reflexivity.
  - injection H as <- _. destruct Hb. now left.
  - injection H as -> _. destruct Ha. now left.
  - injection H as -> H. f_equal. apply IH; [tauto | tauto | exact H].
Qed.

Lemma run_open_other l a s :
  is_literal l = true -> ~ In ">"%char l -> ~ In ">"%char a -> a <> l ->
  run (tag_pattern l) [] ("<"%char :: a ++ ">"%char :: s) = None.
Proof.
  intros Hl Hgl Hga Hne. apply (run_fails _ _ Hl).
  intros v post (H & _). injection H as H.
  apply Hne. exact (split_at_gt _ _ _ _ Hga Hgl H).
Qed.

Lemma run_close l s :
  is_literal l = true -> (forall l', l <> "/"%char :: l') ->
  run (tag_pattern l) [] ("<"%char :: "/"%char :: s) = None.
Proof.
  intros Hl Hhd. apply (run_fails _ _ Hl).
  intros v post (H & _). injection H as H.
  destruct l as [|c l]; simpl in H; [discriminate H|].
  injection H as <- _. now destruct (Hhd l).
Qed.

Lemma run_empty_value l s :
  is_literal l = true ->
  run (tag_pattern l) [] ("<"%char :: l ++ ">"%char :: "<"%char :: s) = None.
Proof.
  intros Hl. apply (run_fails _ _ Hl).
  intros v post (H & Hne & Hv). injection H as H.
  apply app_inv_head in H. injection H as H.
  destruct v as [|c v]; [easy|]. injection H as <- _. apply Hv. now left.
Qed.

Lemma search_skip_open l a s :
  is_literal l = true -> ~ In ">"%char l -> ~ In ">"%char a ->
  ~ In "<"%char a -> a <> l ->
  search (tag_pattern l) ("<"%char :: a ++ ">"%char :: s) = search (tag_pattern l) s.
Proof.
  intros Hl Hgl Hga Hla Hne.
  rewrite search_next by now apply run_open_other.
  replace (a ++ ">"%char :: s) with ((a ++ [">"%char]) ++ s)
    by now rewrite <- app_assoc.
  apply search_skip_text.
  intros Hin. apply in_app_or in Hin as [Hin|[Hin|[]]]; [easy | discriminate Hin].
Qed.

Lemma search_skip_close l a s :
  is_literal l = true -> (forall l', l <> "/"%char :: l') -> ~ In "<"%char a ->
  search (tag_pattern l) ("<"%char :: "/"%char :: a ++ ">"%char :: s) =
  search (tag_pattern l) s.
Proof.
  intros Hl Hhd Hla.
  rewrite search_next by now apply run_close.
  replace ("/"%char :: a ++ ">"%char :: s) with (("/"%char :: a ++ [">"%char]) ++ s)
    by (simpl; now rewrite <- app_assoc).
  apply search_skip_text.
  intros [Hin|Hin]; [discriminate Hin|].
  apply in_app_or in Hin as [Hin|[Hin|[]]]; [easy | discriminate Hin].
Qed.

Lemma search_hit l v s :
  is_literal l = true -> v <> [] -> ~ In "<"%char v ->
  search (tag_pattern l)
    ("<"%char :: l ++ ">"%char :: v ++ "<"%char :: "/"%char :: l ++ ">"%char :: s)
  = Some [v].
Proof.
  intros Hl Hne Hv. apply search_here, (run_tag_literal _ _ _ Hl).
  exists v, s. repeat split; assumption.
Qed.

End Walking.

(** ** Flat records *)

Section FlatRecords.
Import RegExp RegExpFacts.

Lemma name_char_not_markup c :
  is_name_char c = true ->
  c <> "<"%char /\ c <> ">"%char /\ c <> "/"%char.
Proof.
  destruct c as [b0 b1 b2 b3 b4 b5 b6 b7].
  destruct b0, b1, b2, b3, b4, b5, b6, b7; vm_compute;
    intros H; try discriminate H; repeat split; discriminate.
Qed.

Lemma local_name_chars t :
  is_local_name t = true ->
  Forall (fun c => is_name_char c = true) (chars t) /\ chars t <> [].
Proof.
  unfold is_local_name. destruct (chars t) as [|c cs]; [discriminate|].
  intros H. apply andb_true_iff in H as [Hc Hcs]. split; [|discriminate].
  constructor.
  - unfold is_name_char. now rewrite Hc.
  - apply Forall_forall. intros x Hx. rewrite forallb_forall in Hcs.
    apply Hcs. now apply list_elem_of_In.
Qed.

Lemma plain_name_facts t :
  is_plain_name t = true ->
  is_literal (chars t) = true /\
  ~ In "<"%char (chars t) /\ ~ In ">"%char (chars t) /\
  forall l', chars t <> "/"%char :: l'.
Proof.
  unfold is_plain_name. intros H. apply andb_true_iff in H as [Hlocal Hlit].
  destruct (local_name_chars _ Hlocal) as [Hall Hne].
  split; [exact Hlit|]. rewrite Forall_forall in Hall. repeat split.
  - intros Hin. apply list_elem_of_In, Hall, name_char_not_markup in Hin. tauto.
  - intros Hin. apply list_elem_of_In, Hall, name_char_not_markup in Hin. tauto.
  - intros l' Heq.
    assert (Hin : In "/"%char (chars t)) by (rewrite Heq; now left).
    apply list_elem_of_In, Hall, name_char_not_markup in Hin. tauto.
Qed.

Lemma chars_element n v :
  chars (element n v) =
  "<"%char :: chars n ++ ">"%char :: chars v ++ "<"%char :: "/"%char :: chars n ++ [">"%char].
Proof. unfold element. rewrite !chars_app. reflexivity. Qed.

Lemma element_then n v (rest : list ascii) :
  chars (element n v) ++ rest =
  "<"%char :: chars n ++ ">"%char :: chars v ++ "<"%char :: "/"%char :: chars n ++ ">"%char :: rest.
Proof.
  rewrite chars_element. simpl. f_equal. rewrite <- !app_assoc. simpl. f_equal. f_equal.
  rewrite <- !app_assoc. simpl. f_equal. f_equal. f_equal. now rewrite <- app_assoc.
Qed.

Lemma first_value_cons t n v fields :
  first_value t ((n, v) :: fields) =
  if String.eqb n t && negb (String.eqb v "") then Some v else first_value t fields.
Proof.
  unfold first_value. simpl. now destruct (String.eqb n t && negb (String.eqb v "")).
Qed.

(** Walking over the fields: the search stops at the first field
    named [t] with a non-empty value and passes over all others. *)
Lemma search_record t fields tail :
  is_plain_name t = true ->
  Forall is_field fields ->
  search (tag_pattern (chars t)) (chars (record_text fields) ++ tail) =
  match first_value t fields with
  | Some v => Some [chars v]
  | None => search (tag_pattern (chars t)) tail
  end.
Proof.
  intros Ht Hfields.
  destruct (plain_name_facts _ Ht) as (Hlit & Hlt & Hgt & Hslash).
  induction Hfields as [|[n v] fields [Hn Hv] _ IH]; [reflexivity|].
  simpl in Hn, Hv.
  destruct (plain_name_facts _ Hn) as (_ & Hnlt & Hngt & _).
  cbn [record_text fold_right fst snd]. fold (record_text fields).
  rewrite chars_app, <- app_assoc, element_then, first_value_cons.
  destruct (String.eqb_spec n t) as [->|Hne]; cbn [andb negb].
  - destruct (String.eqb_spec v "") as [->|Hvne]; cbn [andb negb].
    + cbn [chars app]. rewrite search_next by now apply run_empty_value.
      replace (chars t ++ ">"%char :: "<"%char :: "/"%char :: chars t ++ ">"%char ::
               chars (record_text fields) ++ tail)
        with ((chars t ++ [">"%char]) ++ "<"%char :: "/"%char :: chars t ++ ">"%char ::
              chars (record_text fields) ++ tail)
        by now rewrite <- app_assoc.
      rewrite search_skip_text.
      * rewrite search_skip_close by assumption. exact IH.
      * intros Hin. apply in_app_or in Hin as [Hin|[Hin|[]]];
          [easy | discriminate Hin].
    + apply search_hit; [exact Hlit | now rewrite chars_nil | exact Hv].
  - rewrite search_skip_open; try assumption.
    + rewrite search_skip_text by exact Hv.
      rewrite search_skip_close by assumption. exact IH.
    + intros Heq. apply Hne. now apply chars_inj.
Qed.

End FlatRecords.

(** X2: on a flat record, fields with plain names and values free of
    [<] inside a root element, the extractor returns for a plain name
    [t] the value of the first field named [t] whose value is not
    empty, and [null] when there is none. *)
Theorem extract_flat_record (root : string) (fields : list (string * string)) (t : string) :
  is_plain_name t = true ->
  is_plain_name root = true ->
  t <> root ->
  Forall is_field fields ->
  extractXmlValue (wrapped root fields) t = Returned (first_value t fields).
Proof.
  intros Ht Hroot Hne Hfields.
  destruct (plain_name_facts _ Ht) as (Hlit & Hlt & Hgt & Hslash).
  destruct (plain_name_facts _ Hroot) as (_ & Hrlt & Hrgt & _).
  rewrite (extract_simple _ _ (literal_simple _ Hlit)).
  unfold wrapped. rewrite !chars_app. cbn [chars app].
  rewrite search_skip_open; try assumption.
  2: { intros Heq. apply Hne. symmetry. now apply chars_inj. }
  replace (chars (record_text fields) ++ "<"%char :: "/"%char :: chars root ++ [">"%char])
    with (chars (record_text fields) ++ "<"%char :: "/"%char :: chars root ++ ">"%char :: [])
    by reflexivity.
  rewrite (search_record _ _ _ Ht Hfields).
  destruct (first_value t fields) as [v|].
  - now rewrite string_of_list_ascii_of_string.
  - now rewrite search_skip_close by assumption.
Qed.

Lemma extract_flat_record_witness :
  is_plain_name "temperature" = true /\
  is_plain_name "GetWeatherResponse" = true /\
  "temperature" <> "GetWeatherResponse" /\
  Forall is_field [("cityCode", "NYC"); ("temperature", "72"); ("success", "true")] /\
  extractXmlValue
    (wrapped "GetWeatherResponse"
       [("cityCode", "NYC"); ("temperature", "72"); ("success", "true")])
    "temperature"
  = Returned (first_value "temperature"
                [("cityCode", "NYC"); ("temperature", "72"); ("success", "true")]).
Proof.
  assert (Hfields : Forall is_field
            [("cityCode", "NYC"); ("temperature", "72"); ("success", "true")]).
  { repeat constructor; simpl; intuition discriminate. }
  split; [reflexivity|]. split; [reflexivity|]. split; [discriminate|].
  split; [exact Hfields|].
  apply (extract_flat_record "GetWeatherResponse"
           [("cityCode", "NYC"); ("temperature", "72"); ("success", "true")]
           "temperature"); [reflexivity | reflexivity | discriminate | exact Hfields].
Defined.

(** ** What a returned value is *)

Lemma prefix_spec (sub s : string) :
  String.prefix sub s = true <-> exists post, s = sub +:+ post.
Proof.
  revert sub. induction s as [|b s IH]; intros [|a sub]; simpl.
  - split; [intros _; now exists "" | reflexivity].
  - split; [discriminate | intros (post & H); discriminate H].
  - split; [intros _; now exists (String b s) | reflexivity].
  - destruct (ascii_dec a b) as [->|Hne].
    + rewrite IH. split.
      * intros (post & ->). now exists post.
      * intros (post & [= ->]). now exists post.
    + split; [discriminate | intros (post & [= <- _]); now destruct Hne].
Qed.

Lemma includes_spec (s sub : string) :
  includes s sub = true <-> exists pre post, s = pre +:+ sub +:+ post.
Proof.
  induction s as [|c s IH].
  - cbn [includes]. destruct (String.prefix sub "") eqn:Hp.
    + split; [intros _ | reflexivity].
      apply prefix_spec in Hp as (post & Hp). now exists "", post.
    + split; [discriminate|]. intros (pre & post & H).
      destruct pre; [|discriminate H]. simpl in H.
      assert (Hp' : String.prefix sub "" = true) by (apply prefix_spec; now exists post).
      congruence.
  - cbn [includes]. destruct (String.prefix sub (String c s)) eqn:Hp.
    + split; [intros _ | reflexivity].
      apply prefix_spec in Hp as (post & Hp). now exists "", post.
    + rewrite IH. split.
      * intros (pre & post & ->). now exists (String c pre), post.
      * intros (pre & post & H). destruct pre as [|c' pre].
        -- simpl in H.
           assert (Hp' : String.prefix sub (String c s) = true)
             by (apply prefix_spec; now exists post).
           congruence.
        -- injection H as <- ->. now exists pre, post.
Qed.

Lemma extract_some_loose xml t v :
  is_local_name t = true ->
  extractXmlValue xml t = Returned (Some v) ->
  exists pre post, loose_occurrence xml t pre v post.
Proof.
  intros Ht. rewrite (extract_simple xml t (local_name_simple _ Ht)).
  destruct (RegExp.search _ _) as [r|] eqn:Hs; [|discriminate].
  destruct (search_loose_single _ _ _ Hs) as (v' & ->).
  rewrite string_of_list_ascii_of_string. intros [= ->].
  apply first_loose_occurrence_some in Hs as (pre & post & Hocc & _).
  now exists pre, post.
Qed.

Lemma extract_some_strict xml t v :
  is_literal_name t = true ->
  extractXmlValue xml t = Returned (Some v) ->
  exists pre post, occurrence xml t pre v post.
Proof.
  intros Ht. rewrite (extract_simple xml t (literal_simple _ Ht)).
  destruct (RegExp.search _ _) as [r|] eqn:Hs; [|discriminate].
  destruct (search_single _ _ _ Ht Hs) as (v' & ->).
  rewrite string_of_list_ascii_of_string. intros [= ->].
  apply (first_occurrence_some _ _ _ Ht) in Hs as (pre & post & Hocc & _).
  now exists pre, post.
Qed.

(** X3: a value returned for a bare local name is never empty, never
    contains [<], and stands in the text right between a [>] and a
    [</]; for a name without pattern syntax characters the whole
    element [<t>v</t>] stands in the text. *)
Theorem extract_value_in_text (xml t v : string) :
  is_local_name t = true ->
  extractXmlValue xml t = Returned (Some v) ->
  v <> "" /\ ~ In "<"%char (chars v) /\
  includes xml (">" +:+ v +:+ "</") = true /\
  (is_literal_name t = true -> includes xml (element t v) = true).
Proof.
  intros Ht Hv.
  destruct (extract_some_loose _ _ _ Ht Hv) as (pre & post & u & u' & Hxml & _ & _ & Hne & Hlt).
  repeat split; try assumption.
  - apply includes_spec. exists (pre +:+ "<" +:+ u), (u' +:+ ">" +:+ post).
    rewrite Hxml. apply chars_inj. rewrite !chars_app, <- !app_assoc. reflexivity.
  - intros Hlit.
    destruct (extract_some_strict _ _ _ Hlit Hv) as (pre' & post' & Hxml' & _).
    apply includes_spec. exists pre', post'. rewrite Hxml'. unfold element.
    apply chars_inj. rewrite !chars_app, <- !app_assoc. reflexivity.
Qed.

Lemma extract_value_in_text_witness :
  is_local_name "success" = true /\
  extractXmlValue "<r><success>true</success></r>" "success" = Returned (Some "true") /\
  "true" <> "" /\ ~ In "<"%char (chars "true") /\
  includes "<r><success>true</success></r>" (">" +:+ "true" +:+ "</") = true /\
  (is_literal_name "success" = true ->
   includes "<r><success>true</success></r>" (element "success" "true") = true).
Proof.
  split; [reflexivity|]. split; [reflexivity|].
  apply (extract_value_in_text "<r><success>true</success></r>" "success" "true");
    reflexivity.
Defined.

(** ** Text after the first match *)

Section Appending.
Import RegExp RegExpFacts.

Ltac list_eq :=
  repeat first [ reflexivity
               | rewrite <- app_assoc
               | rewrite <- app_comm_cons
               | f_equal ].

Lemma reads_like_length l u : reads_like l u -> length u = length l.
Proof. intros H. symmetry. exact (Forall2_length _ _ _ H). Qed.

Lemma run_tag_app l s m r :
  run (tag_pattern l) [] s = Some r -> run (tag_pattern l) [] (s ++ m) = Some r.
Proof.
  intros H.
  apply run_tag_loose in H as (u & v & u' & post & -> & Hu & Hu' & Hne & Hv & ->).
  apply run_tag_loose. exists u, v, u', (post ++ m).
  repeat split; try assumption. list_eq.
Qed.

(** A run free of [<] that starts before a [<] also ends before it. *)
Lemma first_lt_position (A V R X Y : list ascii) :
  A ++ V ++ R = X ++ "<"%char :: Y ->
  ~ In "<"%char V ->
  (length A <= length X)%nat ->
  (length A + length V <= length X)%nat.
Proof.
  intros Heq Hv Hle.
  destruct (le_lt_dec (length A + length V) (length X)) as [Hok|Hlt]; [exact Hok|].
  exfalso. apply Hv.
  assert (Hat : (A ++ V ++ R) !! length X = Some "<"%char).
  { rewrite Heq. apply list_lookup_middle. reflexivity. }
  rewrite lookup_app_r in Hat by lia.
  rewrite lookup_app_l in Hat by lia.
  apply list_elem_of_In. eapply list_elem_of_lookup_2. exact Hat.
Qed.

Lemma app_prefix_inv (l1 l2 k1 k2 : list ascii) :
  l1 ++ l2 = k1 ++ k2 -> (length l1 <= length k1)%nat -> exists d, k1 = l1 ++ d.
Proof.
  revert k1. induction l1 as [|c l1 IH]; intros k1 Heq Hle.
  - now exists k1.
  - destruct k1 as [|c' k1]; [simpl in Hle; lia|].
    injection Heq as -> Heq. simpl in Hle.
    destruct (IH k1 Heq ltac:(lia)) as (d & ->). now exists d.
Qed.

(** A match that succeeds on the extended text, started before a
    match lying inside the text, lies inside the text as well. *)
Lemma run_app_inv l s m r pre s' r' :
  run (tag_pattern l) [] (s ++ m) = Some r ->
  s = pre ++ s' ->
  run (tag_pattern l) [] s' = Some r' ->
  run (tag_pattern l) [] s = Some r.
Proof.
  intros Hext -> Hin.
  apply run_tag_loose in Hext as (u2 & v2 & u2' & post2 & Heq & Hu2 & Hu2' & Hne2 & Hv2 & ->).
  apply run_tag_loose in Hin as (u & v & u' & post & -> & Hu & Hu' & Hne & Hv & ->).
  apply reads_like_length in Hu as Lu, Hu' as Lu', Hu2 as Lu2, Hu2' as Lu2'.
  assert (Hpos : (length ("<"%char :: u2 ++ [">"%char]) + length v2 <=
                  length (pre ++ "<"%char :: u ++ ">"%char :: v))%nat).
  { apply (first_lt_position _ _ ("<"%char :: "/"%char :: u2' ++ ">"%char :: post2)
             _ ("/"%char :: u' ++ ">"%char :: post ++ m)).
    - transitivity ((pre ++ "<"%char :: u ++ ">"%char :: v ++
                     "<"%char :: "/"%char :: u' ++ ">"%char :: post) ++ m).
      + rewrite Heq. list_eq.
      + list_eq.
    - exact Hv2.
    - rewrite length_app. cbn [length]. rewrite !length_app. cbn [length]. lia. }
  assert (Hlen : (length ("<"%char :: u2 ++ ">"%char :: v2 ++
                          "<"%char :: "/"%char :: u2' ++ [">"%char]) <=
                  length (pre ++ "<"%char :: u ++ ">"%char :: v ++
                          "<"%char :: "/"%char :: u' ++ ">"%char :: post))%nat).
  { revert Hpos. cbn [length]. rewrite !length_app. cbn [length].
    rewrite !length_app. cbn [length]. rewrite !length_app. cbn [length].
    rewrite ?length_app. cbn [length]. destruct v; [easy|]. simpl. lia. }
  destruct (app_prefix_inv
              ("<"%char :: u2 ++ ">"%char :: v2 ++ "<"%char :: "/"%char :: u2' ++ [">"%char])
              post2
              (pre ++ "<"%char :: u ++ ">"%char :: v ++
               "<"%char :: "/"%char :: u' ++ ">"%char :: post)
              m) as (d & Hd); [|exact Hlen|].
  - rewrite Heq. list_eq.
  - rewrite Hd. apply run_tag_loose. exists u2, v2, u2', d.
    repeat split; try assumption. list_eq.
Qed.

Lemma run_tag_nil l : run (tag_pattern l) [] [] = None.
Proof. reflexivity. Qed.

Lemma search_app l s m r :
  search (tag_pattern l) s = Some r -> search (tag_pattern l) (s ++ m) = Some r.
Proof.
  induction s as [|c s IH]; intros H.
  - simpl in H. discriminate H.
  - cbn [search] in H. destruct (run (tag_pattern l) [] (c :: s)) as [r0|] eqn:Hrun.
    + injection H as ->. now apply search_here, run_tag_app.
    + cbn [app]. rewrite search_next; [now apply IH|].
      destruct (run (tag_pattern l) [] (c :: s ++ m)) as [r2|] eqn:Hrun2; [|reflexivity].
      apply search_some in H as (pre & s' & -> & Hs' & _).
      rewrite (run_app_inv l (c :: pre ++ s') m r2 (c :: pre) s' r Hrun2 eq_refl Hs') in Hrun.
      discriminate Hrun.
Qed.

End Appending.

(** X4: for a bare local name, text added after the response does not
    change a value already found: what the extractor returns for
    [xml] it also returns for [xml] followed by anything. *)
Theorem extract_append_stable (xml more t v : string) :
  is_local_name t = true ->
  extractXmlValue xml t = Returned (Some v) ->
  extractXmlValue (xml +:+ more) t = Returned (Some v).
Proof.
  intros Ht. rewrite !(extract_simple _ t (local_name_simple _ Ht)), chars_app.
  destruct (RegExp.search _ (chars xml)) as [r|] eqn:Hs; [|discriminate].
  now rewrite (search_app _ _ (chars more) _ Hs).
Qed.

Lemma extract_append_stable_witness :
  is_local_name "a" = true /\
  extractXmlValue "<a>1</a>" "a" = Returned (Some "1") /\
  extractXmlValue ("<a>1</a>" +:+ "<a>2</a></b>") "a" = Returned (Some "1").
Proof.
  split; [reflexivity|]. split; [reflexivity|].
  apply (extract_append_stable "<a>1</a>" "<a>2</a></b>" "a" "1"); reflexivity.
Defined.

(** X5: for a plain name [t] the extractor passes over what cannot
    start its element: leading text free of [<], and an opening tag,
    a closing tag or a complete element whose name [a] differs from
    [t] and has no [<] or [>] in it ([a] may carry a prefix or
    attributes); the result is that for the rest of the text. *)
Theorem extract_passes_over (t a x rest : string) :
  is_plain_name t = true ->
  a <> t ->
  ~ In "<"%char (chars a) -> ~ In ">"%char (chars a) ->
  ~ In "<"%char (chars x) ->
  extractXmlValue (x +:+ rest) t = extractXmlValue rest t /\
  extractXmlValue (element a x +:+ rest) t = extractXmlValue rest t /\
  extractXmlValue ("<" +:+ a +:+ ">" +:+ rest) t = extractXmlValue rest t /\
  extractXmlValue ("</" +:+ a +:+ ">" +:+ rest) t = extractXmlValue rest t.
Proof.
  intros Ht Hne Halt Hagt Hx.
  destruct (plain_name_facts _ Ht) as (Hlit & Hlt & Hgt & Hslash).
  assert (Hchars : chars a <> chars t) by (intros Heq; now apply Hne, chars_inj).
  rewrite !(extract_simple _ t (literal_simple _ Hlit)).
  repeat split; f_equal.
  - now rewrite chars_app, search_skip_text.
  - rewrite chars_app, element_then, search_skip_open by assumption.
    now rewrite search_skip_text, search_skip_close.
  - rewrite !chars_app. cbn [chars app]. now rewrite search_skip_open.
  - rewrite !chars_app. cbn [chars app]. now rewrite search_skip_close.
Qed.

Lemma extract_passes_over_witness :
  is_plain_name "b" = true /\ "ns:a" <> "b" /\
  ~ In "<"%char (chars "ns:a") /\ ~ In ">"%char (chars "ns:a") /\
  ~ In "<"%char (chars " 1 > 0 ") /\
  extractXmlValue (" 1 > 0 " +:+ "<b>2</b>") "b" = extractXmlValue "<b>2</b>" "b" /\
  extractXmlValue (element "ns:a" " 1 > 0 " +:+ "<b>2</b>") "b" = extractXmlValue "<b>2</b>" "b" /\
  extractXmlValue ("<" +:+ "ns:a" +:+ ">" +:+ "<b>2</b>") "b" = extractXmlValue "<b>2</b>" "b" /\
  extractXmlValue ("</" +:+ "ns:a" +:+ ">" +:+ "<b>2</b>") "b" = extractXmlValue "<b>2</b>" "b".
Proof.
  assert (Ha1 : ~ In "<"%char (chars "ns:a")) by (simpl; intuition discriminate).
  assert (Ha2 : ~ In ">"%char (chars "ns:a")) by (simpl; intuition discriminate).
  assert (Hx : ~ In "<"%char (chars " 1 > 0 ")) by (simpl; intuition discriminate).
  split; [reflexivity|]. split; [discriminate|]. split; [exact Ha1|].
  split; [exact Ha2|]. split; [exact Hx|].
  apply (extract_passes_over "b" "ns:a" " 1 > 0 " "<b>2</b>");
    [reflexivity | discriminate | exact Ha1 | exact Ha2 | exact Hx].
Defined.

(** X15: the extractor does not see an element whose opening tag is
    not exactly [<t>]: with attributes, a prefix or a self-closing
    slash in the tag (any tag text [a] other than [t], free of [<] and
    [>]), followed by content free of [<], it returns [null], whether
    a closing tag follows or not. *)
Theorem extract_misses_decorated_tag (t a x b : string) :
  is_plain_name t = true ->
  a <> t ->
  ~ In "<"%char (chars a) -> ~ In ">"%char (chars a) ->
  ~ In "<"%char (chars x) -> ~ In "<"%char (chars b) ->
  extractXmlValue ("<" +:+ a +:+ ">" +:+ x) t = Returned None /\
  extractXmlValue ("<" +:+ a +:+ ">" +:+ x +:+ "</" +:+ b +:+ ">") t = Returned None.
Proof.
  intros Ht Hne Halt Hagt Hx Hb.
  destruct (plain_name_facts _ Ht) as (Hlit & Hlt & Hgt & Hslash).
  assert (Hchars : chars a <> chars t) by (intros Heq; now apply Hne, chars_inj).
  rewrite !(extract_simple _ t (literal_simple _ Hlit)).
  rewrite !chars_app. cbn [chars app]. rewrite !search_skip_open by assumption.
  split.
  - rewrite <- (app_nil_r (chars x)), search_skip_text by assumption. reflexivity.
  - rewrite search_skip_text by assumption.
    replace (chars b ++ [">"%char]) with (chars b ++ ">"%char :: []) by reflexivity.
    now rewrite search_skip_close.
Qed.

Lemma extract_misses_decorated_tag_witness :
  is_plain_name "t" = true /\ "t id=1" <> "t" /\
  ~ In "<"%char (chars "t id=1") /\ ~ In ">"%char (chars "t id=1") /\
  ~ In "<"%char (chars "v") /\ ~ In "<"%char (chars "t") /\
  extractXmlValue ("<" +:+ "t id=1" +:+ ">" +:+ "v") "t" = Returned None /\
  extractXmlValue ("<" +:+ "t id=1" +:+ ">" +:+ "v" +:+ "</" +:+ "t" +:+ ">") "t"
    = Returned None.
Proof.
  assert (Ha1 : ~ In "<"%char (chars "t id=1")) by (simpl; intuition discriminate).
  assert (Ha2 : ~ In ">"%char (chars "t id=1")) by (simpl; intuition discriminate).
  assert (Hx : ~ In "<"%char (chars "v")) by (simpl; intuition discriminate).
  assert (Hb : ~ In "<"%char (chars "t")) by (simpl; intuition discriminate).
  split; [reflexivity|]. split; [discriminate|]. split; [exact Ha1|].
  split; [exact Ha2|]. split; [exact Hx|]. split; [exact Hb|].
  apply (extract_misses_decorated_tag "t" "t id=1" "v" "t");
    [reflexivity | discriminate | exact Ha1 | exact Ha2 | exact Hx | exact Hb].
Defined.

(** ** What the sender writes and posts *)

Lemma send_full request endpoint payload bearerToken action w :
  let options := {| post_headers := headers bearerToken action;
                    post_data := payload |} in
  let outcome := request (events w ++ [sending_line endpoint]) endpoint options in
  sendSoapRequest request endpoint payload bearerToken action w =
  (outcome,
   {| fs := fs w;
      events := events w ++
                sending_line endpoint :: Post endpoint options :: after_post outcome |}).
Proof.
  unfold sendSoapRequest, bind, try_catch, post, console_log, console_error, ret,
    throw, emit, sending_line, after_post, forbidden_lines.
  cbn [events fs].
  destruct (request _ endpoint _) as [response|error].
  - destruct (status response =? 403)%Z; cbn [events fs];
      repeat rewrite <- app_assoc; reflexivity.
  - cbn [events fs]. repeat rewrite <- app_assoc. reflexivity.
Qed.

(** X6: a run of the sender appends to the trace the sending line,
    the one post, and then: nothing for a response whose status is not
    403; five error lines, the last with the response headers, for a
    403; one error line carrying the thrown error when the transport
    fails.  The file system is left as it was. *)
Theorem send_trace request endpoint payload bearerToken action w :
  let options := {| post_headers := headers bearerToken action;
                    post_data := payload |} in
  let outcome := request (events w ++ [sending_line endpoint]) endpoint options in
  let out := sendSoapRequest request endpoint payload bearerToken action w in
  events out.2 =
    events w ++ sending_line endpoint :: Post endpoint options ::
    match outcome with
    | Normal response =>
        if (status response =? 403)%Z then
          [ConsoleError [LStr "403 Forbidden Error Details:"];
           ConsoleError [LStr "- Check if your bearer token is valid and not expired"];
           ConsoleError [LStr "- Verify if additional headers are required"];
           ConsoleError [LStr "- Ensure your IP address is allowed to access the service"];
           ConsoleError [LStr "Response headers:"; LHeaders (headersArray response)]]
        else []
    | Throw error => [ConsoleError [LStr "Error sending SOAP request:"; LExn error]]
    end /\
  fs out.2 = fs w.
Proof.
  intros options outcome out. subst options outcome out.
  rewrite send_full. split; reflexivity.
Qed.

Lemma console_app (evs evs' : list Event) :
  console (evs ++ evs') = console evs ++ console evs'.
Proof. unfold console. apply List.filter_app. Qed.

Lemma console_after_post outcome : console (after_post outcome) = after_post outcome.
Proof.
  destruct outcome as [response|error]; [|reflexivity].
  simpl. now destruct (status response =? 403)%Z.
Qed.

(** X7: the console lines of a run depend on the endpoint and on how
    the transport call completes, and on nothing else: two runs to
    the same endpoint whose transport calls complete alike write the
    same lines, whatever the tokens, the actions and the payloads.
    (A token or a payload can still reach the console through what the
    transport returns or throws: the response headers of a 403 and
    the thrown error are logged as they are.) *)
Theorem send_console_same_for_same_outcome
    request1 request2 endpoint payload1 payload2 token1 token2 action1 action2 w :
  request1 (events w ++ [sending_line endpoint]) endpoint
    {| post_headers := headers token1 action1; post_data := payload1 |} =
  request2 (events w ++ [sending_line endpoint]) endpoint
    {| post_headers := headers token2 action2; post_data := payload2 |} ->
  console (events (sendSoapRequest request1 endpoint payload1 token1 action1 w).2) =
  console (events (sendSoapRequest request2 endpoint payload2 token2 action2 w).2).
Proof.
  intros Hsame. rewrite !send_full. cbn [snd events].
  rewrite !console_app. f_equal. cbn [console List.filter sending_line].
  f_equal. now rewrite Hsame.
Qed.

Lemma send_console_same_for_same_outcome_witness :
  let answer : APIRequestContext :=
    fun _ _ _ => Normal {| status := 403; headersArray := [("Server", "gw")]; text := "" |} in
  answer (events (initial ∅) ++ [sending_line "https://example.com/soap"])
    "https://example.com/soap"
    {| post_headers := headers (Some "secret-1") None; post_data := "<a/>" |} =
  answer (events (initial ∅) ++ [sending_line "https://example.com/soap"])
    "https://example.com/soap"
    {| post_headers := headers None (Some "urn:x"); post_data := "<b/>" |} /\
  console (events (sendSoapRequest answer "https://example.com/soap" "<a/>"
                     (Some "secret-1") None (initial ∅)).2) =
  console (events (sendSoapRequest answer "https://example.com/soap" "<b/>"
                     None (Some "urn:x") (initial ∅)).2).
Proof.
  intros answer. split; [reflexivity|].
  apply (send_console_same_for_same_outcome answer answer "https://example.com/soap"
           "<a/>" "<b/>" (Some "secret-1") None None (Some "urn:x") (initial ∅)).
  reflexivity.
Defined.

(** X8: the posted header set has exactly four names when no token
    or an empty token is given, and exactly five, [Authorization]
    added, otherwise; [SOAPAction] is always among them, empty when
    the action is missing or empty. *)
Theorem headers_names bearerToken action :
  dom (headers bearerToken action) =
    (if truthy bearerToken
     then {["Content-Type"; "Accept"; "SOAPAction"; "User-Agent"; "Authorization"]}
     else {["Content-Type"; "Accept"; "SOAPAction"; "User-Agent"]} : gset string) /\
  size (headers bearerToken action) = (if truthy bearerToken then 5 else 4)%nat /\
  headers bearerToken None = headers bearerToken (Some "") /\
  headers bearerToken None !! "SOAPAction" = Some "".
Proof.
  split; [|split; [|split; [reflexivity|]]].
  - unfold headers. destruct (truthy bearerToken);
      rewrite !dom_insert_L, dom_empty_L; apply set_eq; intros k;
      rewrite !elem_of_union, !elem_of_singleton, elem_of_empty; tauto.
  - unfold headers. destruct (truthy bearerToken);
      repeat (rewrite map_size_insert_None; [|now simplify_map_eq]);
      now rewrite map_size_empty.
  - now destruct (headers_defaults bearerToken None) as (_ & _ & H & _).
Qed.

(** ** The test suite *)

Lemma bind_run {A B} (m : Js A) (k : A -> Js B) w :
  bind m k w =
  match m w with
  | (Normal a, w') => k a w'
  | (Throw e, w') => (Throw e, w')
  end.
Proof. reflexivity. Qed.

Lemma expect_run holds matcher w :
  expect holds matcher w =
  (if holds then Normal tt else Throw (Thrown ("expect: " +:+ matcher)), w).
Proof. now destruct holds. Qed.

Lemma console_log_run args w :
  console_log args w = (Normal tt, {| fs := fs w; events := events w ++ [ConsoleLog args] |}).
Proof. reflexivity. Qed.

Lemma readFileSync_run path w :
  readFileSync path w =
  (match fs w !! path with
   | Some (File content) => Normal content
   | Some Directory => Throw (ErrnoException "EISDIR" "read" path)
   | Some (Unresolved code) => Throw (ErrnoException code "open" path)
   | None => Throw (ErrnoException "ENOENT" "open" path)
   end, {| fs := fs w; events := events w ++ [ReadFile path] |}).
Proof. unfold readFileSync, emit. now destruct (fs w !! path) as [[c| |code]|]. Qed.

Lemma log_details_run statusText response w :
  logResponseDetails statusText response w =
  (Normal tt, {| fs := fs w; events := events w ++ details_lines statusText response |}).
Proof.
  unfold logResponseDetails, bind, console_log, emit, details_lines. cbn [fs events].
  now rewrite <- !app_assoc.
Qed.

Lemma ret_run {A} (a : A) w : ret a w = (Normal a, w).
Proof. reflexivity. Qed.

Ltac js_step :=
  first [ rewrite bind_run | rewrite ret_run | rewrite expect_run | rewrite console_log_run
        | rewrite send_full | rewrite render_run | rewrite log_details_run
        | rewrite readFileSync_run ];
  cbn [fst snd fs events emit].

Ltac js_steps := repeat js_step.

Lemma posts_after_post outcome : posts (after_post outcome) = [].
Proof.
  destruct outcome as [response|error]; [|reflexivity].
  simpl. now destruct (status response =? 403)%Z.
Qed.

Lemma posts_cons_post endpoint options evs :
  posts (Post endpoint options :: evs) = (endpoint, options) :: posts evs.
Proof. reflexivity. Qed.

Lemma posts_cons_log args evs : posts (ConsoleLog args :: evs) = posts evs.
Proof. reflexivity. Qed.

Lemma posts_cons_read path evs : posts (ReadFile path :: evs) = posts evs.
Proof. reflexivity. Qed.

Lemma posts_nil : posts [] = [].
Proof. reflexivity. Qed.

Ltac posts_exit :=
  unfold sending_line, details_lines, emit; cbn [events snd fst];
  repeat first [ rewrite posts_app | rewrite posts_cons_post | rewrite posts_cons_log
               | rewrite posts_cons_read | rewrite posts_after_post
               | rewrite posts_nil | rewrite app_nil_r ];
  reflexivity.

Lemma value_of_some e v : value_of e = Some v <-> e = Returned (Some v).
Proof. destruct e as [[x|]|]; simpl; split; congruence. Qed.

Lemma value_of_not_none e : value_of e <> None <-> exists v, e = Returned (Some v).
Proof.
  destruct e as [[x|]|]; simpl; split; try congruence.
  - intros _. now exists x.
  - intros (v & H). discriminate H.
  - intros (v & H). discriminate H.
Qed.

Lemma extract_includes_open body t v :
  is_literal_name t = true ->
  extractXmlValue body t = Returned (Some v) ->
  includes body ("<" +:+ t +:+ ">") = true.
Proof.
  intros Ht Hv. destruct (extract_some_strict _ _ _ Ht Hv) as (pre & post & Hxml & _).
  apply includes_spec. exists pre, (v +:+ "</" +:+ t +:+ ">" +:+ post).
  rewrite Hxml. apply chars_inj. rewrite !chars_app, <- !app_assoc. reflexivity.
Qed.

(** X9: the weather test passes exactly when the template exists and
    renders, the transport answers with status 200, the body yields
    [NYC] for [cityCode], some value for [temperature] and [true] for
    [success], the expected-response file can be read, and the body
    contains [<GetWeatherResponse].  The last expectation, on
    [<temperature>], adds nothing: it holds whenever a temperature was
    extracted. *)
Theorem weather_test_passes_iff env utils tests compile statusText today request w :
  (weather_test env utils tests compile statusText today request w).1 = Normal tt <->
  exists content payload response expected,
    fs w !! templatePath utils "getWeatherRequest" = Some (File content) /\
    compile content (weatherRequestData today) = Normal payload /\
    request
      (events w ++
       [ReadFile (templatePath utils "getWeatherRequest");
        ConsoleLog [LStr "SOAP Request Payload:"; LStr payload];
        sending_line (SOAP_ENDPOINT env)])
      (SOAP_ENDPOINT env)
      {| post_headers := headers (Some (AUTH_TOKEN env)) (Some weather_action);
         post_data := payload |} = Normal response /\
    status response = 200%Z /\
    extractXmlValue (text response) "cityCode" = Returned (Some "NYC") /\
    (exists temperature,
       extractXmlValue (text response) "temperature" = Returned (Some temperature)) /\
    extractXmlValue (text response) "success" = Returned (Some "true") /\
    fs w !! expectedResponsePath tests = Some (File expected) /\
    includes (text response) "<GetWeatherResponse" = true.
Proof.
  unfold weather_test. js_steps. split.
  - intros H.
    destruct (fs w !! templatePath _ _) as [[content| |code]|] eqn:Hfs; try discriminate H.
    destruct (compile content _) as [payload|e] eqn:Hc; try discriminate H.
    revert H. js_steps. rewrite <- ?app_assoc. cbn [app].
    destruct (request _ _ _) as [response|e] eqn:Hr; [|discriminate].
    destruct (status response =? 403)%Z eqn:H403; js_steps;
      (destruct (status response =? 200)%Z eqn:H200; [|discriminate]).
    { apply Z.eqb_eq in H403, H200. lia. }
    js_steps.
    destruct (bool_decide (_ = Some "NYC")) eqn:Hcity; [|discriminate].
    destruct (bool_decide (_ <> None)) eqn:Htemp; [|discriminate].
    destruct (bool_decide (_ = Some "true")) eqn:Hsucc; [|discriminate].
    destruct (fs w !! expectedResponsePath tests) as [[expected| |code]|] eqn:Hexp;
      try discriminate.
    destruct (includes _ "<GetWeatherResponse") eqn:Hinc; [|discriminate].
    intros _. exists content, payload, response, expected.
    apply bool_decide_eq_true_1 in Hcity, Htemp, Hsucc.
    apply value_of_some in Hcity, Hsucc. apply value_of_not_none in Htemp.
    apply Z.eqb_eq in H200. repeat split; assumption.
  - intros (content & payload & response & expected & Hfs & Hc & Hr & Hst & Hcity &
            (temperature & Htemp) & Hsucc & Hexp & Hinc).
    rewrite Hfs, Hc. js_steps. rewrite <- ?app_assoc. cbn [app]. rewrite Hr, Hst.
    cbn [Z.eqb Pos.eqb]. js_steps. rewrite Hcity, Htemp, Hsucc, Hexp, Hinc.
    assert (Htag : includes (text response) "<temperature>" = true)
      by exact (extract_includes_open _ "temperature" _ eq_refl Htemp).
    rewrite Htag. reflexivity.
Qed.

(** X10: the weather test posts one request when the template
    renders and none otherwise; the request goes to the configured
    endpoint, which is never empty, with the rendered payload, the
    weather SOAPAction, and an [Authorization] header exactly when
    [AUTH_TOKEN] is set to a non-empty value. *)
Theorem weather_test_posts env utils tests compile statusText today request w :
  let rendered :=
    (processSoapTemplate utils compile "getWeatherRequest" (weatherRequestData today) w).1 in
  let out := weather_test env utils tests compile statusText today request w in
  let hs := headers (Some (AUTH_TOKEN env)) (Some weather_action) in
  posts (events out.2) =
    posts (events w) ++
    match rendered with
    | Normal payload =>
        [(SOAP_ENDPOINT env, {| post_headers := hs; post_data := payload |})]
    | Throw _ => []
    end /\
  SOAP_ENDPOINT env <> "" /\
  hs !! "SOAPAction" = Some weather_action /\
  hs !! "Authorization" =
    match env !! "AUTH_TOKEN" with
    | Some token => if String.eqb token "" then None else Some ("Bearer " +:+ token)
    | None => None
    end.
Proof.
  intros rendered out hs. subst rendered out hs. split; [|split; [|split]].
  - unfold weather_test. js_steps.
    destruct (fs w !! _) as [[content| |code]|]; [|posts_exit..].
    destruct (compile content _) as [payload|e]; [|posts_exit].
    js_steps.
    destruct (request _ _ _) as [response|e]; [|posts_exit].
    destruct (status response =? 403)%Z; js_steps;
      (destruct (status response =? 200)%Z; cbn beta iota; [|posts_exit]);
      (destruct (bool_decide (_ = Some "NYC")); cbn beta iota; [|posts_exit]);
      (destruct (bool_decide (_ <> None)); cbn beta iota; [|posts_exit]);
      (destruct (bool_decide (_ = Some "true")); cbn beta iota; [|posts_exit]);
      (destruct (fs w !! expectedResponsePath tests) as [[expected| |code]|];
         cbn beta iota; [|posts_exit..]);
      (destruct (includes _ "<GetWeatherResponse"); cbn beta iota; [|posts_exit]);
      posts_exit.
  - unfold SOAP_ENDPOINT, or_else. destruct (env !! "SOAP_ENDPOINT") as [url|]; [|easy].
    now destruct (String.eqb_spec url "").
  - now destruct (headers_defaults (Some (AUTH_TOKEN env)) (Some weather_action))
      as (_ & _ & H & _).
  - unfold AUTH_TOKEN, or_else. destruct (env !! "AUTH_TOKEN") as [token|].
    + destruct (String.eqb_spec token "") as [->|Hne].
      * apply headers_no_token.
      * now apply headers_authorization_token.
    + apply headers_no_token.
Qed.

(** X11: when the request template is missing, both tests fail with
    the not-found error of the file read and post nothing. *)
Theorem tests_stop_without_template env utils tests compile statusText today request w :
  fs w !! templatePath utils "getWeatherRequest" = None ->
  let missing :=
    Throw (ErrnoException "ENOENT" "open" (templatePath utils "getWeatherRequest")) in
  let weather := weather_test env utils tests compile statusText today request w in
  let invalid := invalid_city_test env utils compile today request w in
  weather.1 = missing /\ posts (events weather.2) = posts (events w) /\
  invalid.1 = missing /\ posts (events invalid.2) = posts (events w).
Proof.
  intros Hmissing missing weather invalid. subst missing weather invalid.
  unfold weather_test, invalid_city_test. js_steps. rewrite Hmissing.
  repeat split; try reflexivity; posts_exit.
Qed.

(** X12: the weather test reads the expected-response file but
    never looks at its content: in two worlds alike but for the
    content of that file it completes alike. *)
Theorem weather_test_ignores_expected_content
    env utils tests compile statusText today request (w1 w2 : World) expected1 expected2 :
  events w1 = events w2 ->
  fs w1 !! templatePath utils "getWeatherRequest" =
    fs w2 !! templatePath utils "getWeatherRequest" ->
  fs w1 !! expectedResponsePath tests = Some (File expected1) ->
  fs w2 !! expectedResponsePath tests = Some (File expected2) ->
  (weather_test env utils tests compile statusText today request w1).1 =
  (weather_test env utils tests compile statusText today request w2).1.
Proof.
  intros Hevents Htemplate He1 He2. unfold weather_test. js_steps.
  rewrite Htemplate.
  destruct (fs w2 !! templatePath _ _) as [[content| |code]|]; try reflexivity.
  destruct (compile content _) as [payload|e]; [|reflexivity].
  js_steps. rewrite Hevents.
  destruct (request _ _ _) as [response|e]; [|reflexivity].
  destruct (status response =? 403)%Z; js_steps; rewrite He1, He2;
    (destruct (status response =? 200)%Z; cbn beta iota; [|reflexivity]);
    (destruct (bool_decide (_ = Some "NYC")); cbn beta iota; [|reflexivity]);
    (destruct (bool_decide (_ <> None)); cbn beta iota; [|reflexivity]);
    (destruct (bool_decide (_ = Some "true")); cbn beta iota; [|reflexivity]);
    (destruct (includes _ "<GetWeatherResponse"); cbn beta iota; [|reflexivity]);
    reflexivity.
Qed.

(** X13: the invalid-city test passes exactly when the template
    exists and renders, the transport answers with status 400, and
    the body contains [error]. *)
Theorem invalid_city_test_passes_iff env utils compile today request w :
  (invalid_city_test env utils compile today request w).1 = Normal tt <->
  exists content payload response,
    fs w !! templatePath utils "getWeatherRequest" = Some (File content) /\
    compile content (invalidCityRequestData today) = Normal payload /\
    request
      (events w ++
       [ReadFile (templatePath utils "getWeatherRequest");
        sending_line (SOAP_ENDPOINT env)])
      (SOAP_ENDPOINT env)
      {| post_headers := headers (Some (AUTH_TOKEN env)) None;
         post_data := payload |} = Normal response /\
    status response = 400%Z /\
    includes (text response) "error" = true.
Proof.
  unfold invalid_city_test. js_steps. split.
  - intros H.
    destruct (fs w !! templatePath _ _) as [[content| |code]|] eqn:Hfs; try discriminate H.
    destruct (compile content _) as [payload|e] eqn:Hc; try discriminate H.
    revert H. js_steps. rewrite <- ?app_assoc. cbn [app].
    destruct (request _ _ _) as [response|e] eqn:Hr; [|discriminate].
    js_steps.
    destruct (status response =? 400)%Z eqn:H400; [|discriminate].
    destruct (includes _ "error") eqn:Hinc; [|discriminate].
    intros _. exists content, payload, response. apply Z.eqb_eq in H400.
    repeat split; assumption.
  - intros (content & payload & response & Hfs & Hc & Hr & Hst & Hinc).
    rewrite Hfs, Hc. js_steps. rewrite <- ?app_assoc. cbn [app]. rewrite Hr.
    js_steps. rewrite Hst, Hinc. reflexivity.
Qed.

(** ** The response preview *)

Lemma length_append_str (a b : string) :
  String.length (a +:+ b) = (String.length a + String.length b)%nat.
Proof. induction a as [|c a IH]; simpl; [reflexivity | now rewrite IH]. Qed.

Lemma substring_0_all n s :
  (String.length s <= n)%nat -> String.substring 0 n s = s.
Proof.
  revert s. induction n as [|n IH]; intros [|c s] Hlen; simpl in *;
    try reflexivity; try lia.
  f_equal. apply IH. lia.
Qed.

Lemma substring_0_length n s :
  String.length (String.substring 0 n s) = Nat.min n (String.length s).
Proof.
  revert s. induction n as [|n IH]; intros [|c s]; simpl; try reflexivity.
  now rewrite IH.
Qed.

Lemma substring_0_prefix n s : exists rest, s = String.substring 0 n s +:+ rest.
Proof.
  revert s. induction n as [|n IH]; intros [|c s]; simpl.
  - now exists "".
  - now exists (String c s).
  - now exists "".
  - destruct (IH s) as (rest & H). exists rest.
    change (String c s = String c (String.substring 0 n s +:+ rest)). now f_equal.
Qed.

(** X14: [logResponseDetails] never throws and writes four lines;
    the body it shows is the body itself when that has at most 500
    characters, and otherwise its first 500 characters followed by
    three dots, 503 characters in all. *)
Theorem log_details_preview statusText response w :
  let out := logResponseDetails statusText response w in
  let body := text response in
  out.1 = Normal tt /\
  events out.2 =
    events w ++
    [ConsoleLog [LStr ("Response status: " +:+ number_to_string (status response))];
     ConsoleLog [LStr ("Response status text: " +:+ statusText response)];
     ConsoleLog [LStr "Response body:"; LStr (body_preview body)];
     ConsoleLog [LStr "Response headers:"; LHeaders (headersArray response)]] /\
  body_preview body =
    (if (500 <? String.length body)%nat
     then String.substring 0 500 body +:+ "..." else body) /\
  String.length (body_preview body) =
    (if (500 <? String.length body)%nat then 503 else String.length body)%nat /\
  exists rest, body = String.substring 0 500 body +:+ rest.
Proof.
  intros out body. subst out body. rewrite log_details_run. cbn [fst snd events].
  split; [reflexivity|]. split; [reflexivity|].
  unfold body_preview.
  destruct (Nat.ltb_spec 500 (String.length (text response))) as [Hlong|Hshort].
  - split; [reflexivity|]. split; [|apply substring_0_prefix].
    rewrite length_append_str, substring_0_length.
    change (String.length "...") with 3%nat. lia.
  - rewrite (substring_0_all _ _ Hshort). split.
    + apply chars_inj. rewrite chars_app. simpl. apply app_nil_r.
    + split; [|exists ""; apply chars_inj; rewrite chars_app; simpl;
                 now rewrite app_nil_r].
      rewrite length_append_str. simpl. lia.
Qed.

Lemma weather_test_passes_iff_witness :
  (weather_test ∅ "/repo/utils" "/repo/tests" echo_template reason_phrase "2024-01-01"
     (answering weather_response) (initial suite_files)).1 = Normal tt.
Proof.
  apply (weather_test_passes_iff ∅ "/repo/utils" "/repo/tests" echo_template
           reason_phrase "2024-01-01" (answering weather_response) (initial suite_files)).
  exists "<GetWeather><cityCode>{{cityCode}}</cityCode></GetWeather>",
         "<GetWeather><cityCode>{{cityCode}}</cityCode></GetWeather>",
         weather_response, "<GetWeatherResponse/>".
  split; [vm_compute; reflexivity|]. split; [reflexivity|]. split; [reflexivity|].
  split; [reflexivity|]. split; [vm_compute; reflexivity|].
  split; [exists "72"; vm_compute; reflexivity|].
  split; [vm_compute; reflexivity|]. split; vm_compute; reflexivity.
Defined.

Lemma invalid_city_test_passes_iff_witness :
  (invalid_city_test ∅ "/repo/utils" echo_template "2024-01-01"
     (answering error_response) (initial suite_files)).1 = Normal tt.
Proof.
  apply (invalid_city_test_passes_iff ∅ "/repo/utils" echo_template "2024-01-01"
           (answering error_response) (initial suite_files)).
  exists "<GetWeather><cityCode>{{cityCode}}</cityCode></GetWeather>",
         "<GetWeather><cityCode>{{cityCode}}</cityCode></GetWeather>",
         error_response.
  split; [vm_compute; reflexivity|]. split; [reflexivity|]. split; [reflexivity|].
  split; [reflexivity|]. vm_compute; reflexivity.
Defined.

Lemma tests_stop_without_template_witness :
  fs (initial ∅) !! templatePath "/repo/utils" "getWeatherRequest" = None /\
  let missing :=
    Throw (ErrnoException "ENOENT" "open" (templatePath "/repo/utils" "getWeatherRequest")) in
  let weather :=
    weather_test ∅ "/repo/utils" "/repo/tests" echo_template reason_phrase "2024-01-01"
      (answering weather_response) (initial ∅) in
  let invalid :=
    invalid_city_test ∅ "/repo/utils" echo_template "2024-01-01"
      (answering error_response) (initial ∅) in
  weather.1 = missing /\ posts (events weather.2) = posts (events (initial ∅)) /\
  invalid.1 = missing /\ posts (events invalid.2) = posts (events (initial ∅)).
Proof.
  split; [reflexivity|]. intros missing weather invalid. subst missing weather invalid.
  split; [|split].
  - apply (tests_stop_without_template ∅ "/repo/utils" "/repo/tests" echo_template
             reason_phrase "2024-01-01" (answering weather_response) (initial ∅)).
    reflexivity.
  - apply (tests_stop_without_template ∅ "/repo/utils" "/repo/tests" echo_template
             reason_phrase "2024-01-01" (answering weather_response) (initial ∅)).
    reflexivity.
  - split; vm_compute; reflexivity.
Defined.

Lemma weather_test_ignores_expected_content_witness :
  events (initial suite_files) = events (initial other_suite_files) /\
  fs (initial suite_files) !! templatePath "/repo/utils" "getWeatherRequest" =
    fs (initial other_suite_files) !! templatePath "/repo/utils" "getWeatherRequest" /\
  fs (initial suite_files) !! expectedResponsePath "/repo/tests" =
    Some (File "<GetWeatherResponse/>") /\
  fs (initial other_suite_files) !! expectedResponsePath "/repo/tests" =
    Some (File "something else") /\
  (weather_test ∅ "/repo/utils" "/repo/tests" echo_template reason_phrase "2024-01-01"
     (answering weather_response) (initial suite_files)).1 =
  (weather_test ∅ "/repo/utils" "/repo/tests" echo_template reason_phrase "2024-01-01"
     (answering weather_response) (initial other_suite_files)).1.
Proof.
  split; [reflexivity|]. split; [vm_compute; reflexivity|].
  split; [vm_compute; reflexivity|]. split; [vm_compute; reflexivity|].
  apply (weather_test_ignores_expected_content ∅ "/repo/utils" "/repo/tests"
           echo_template reason_phrase "2024-01-01" (answering weather_response)
           (initial suite_files) (initial other_suite_files)
           "<GetWeatherResponse/>" "something else");
    vm_compute; reflexivity.
Defined.
